(** * Report comparison page (src/pages/Comparison.tsx)

    A shallow embedding of the comparison page of the bid-intelligence
    front end: the metric comparator ([getBestValue], [getWorstValue],
    [getValueColor]), the opportunity scorer ([findBestOpportunity]), the
    summary statistics of the page footer, the recommendation banner and
    the loader [loadComparison].

    Numbers.  The page is embedded over two models of the JavaScript
    [number].

    [JS.number] is an exact rational, or one of [Infinity], [-Infinity],
    [NaN]; rounding, overflow and the sign of zero are not modelled.  The
    modules [JS], [Comparison] and [Store] use it.  It carries the
    statements in which no rounding takes part: the score formula as an
    identity, comparisons of field values, examples on integers, the
    absence of errors, the frame of the store.

    [JS64.number] is the binary64 number of the running program, every
    operation rounded as IEEE 754 prescribes.  The modules [JS64] and
    [Comparison64] run the scorer, the sort and the summary on it.  It
    carries the statements that depend on which computed scores are equal
    or smaller, and on the rounding of a computed mean. *)

From Stdlib Require Import QArith Qround Qabs Lia Lqa List String Ascii ZArith.
From Stdlib Require Import Permutation Sorted.
From Stdlib Require Import Qpower.
From Stdlib Require Floats Uint63.
From stdpp Require Import gmap strings pretty.
Import ListNotations.

Local Open Scope Q_scope.

(** ** JavaScript values and built-ins used by the page *)

Module JS.

Inductive number : Type :=
  | NaN
  | Infinity
  | NegInfinity
  | Fin (q : Q).

(** How a JavaScript evaluation ends: normally with a value, or abruptly
    with a thrown error (named by its class). *)
Inductive Completion (A : Type) : Type :=
  | Return (v : A)
  | Throw (error : string).
Arguments Return {A} v.
Arguments Throw {A} error.

(** [x < y] *)
Definition lt (x y : number) : bool :=
  match x, y with
  | NaN, _ | _, NaN => false
  | Fin a, Fin b => negb (Qle_bool b a)
  | NegInfinity, NegInfinity => false
  | NegInfinity, _ => true
  | _, NegInfinity => false
  | Infinity, _ => false
  | Fin _, Infinity => true
  end.

(** [x === y] on numbers: [NaN] is not equal to itself. *)
Definition strict_eq (x y : number) : bool :=
  match x, y with
  | Fin a, Fin b => Qeq_bool a b
  | Infinity, Infinity => true
  | NegInfinity, NegInfinity => true
  | _, _ => false
  end.

(** [x / y]; a zero divisor is [+0]. *)
Definition div (x y : number) : number :=
  match x, y with
  | NaN, _ | _, NaN => NaN
  | Fin a, Fin b =>
      if Qeq_bool b 0 then
        if Qeq_bool a 0 then NaN
        else if Qle_bool 0 a then Infinity else NegInfinity
      else Fin (a / b)
  | Fin _, _ => Fin 0
  | Infinity, Fin b => if Qle_bool 0 b then Infinity else NegInfinity
  | NegInfinity, Fin b => if Qle_bool 0 b then NegInfinity else Infinity
  | _, _ => NaN
  end.

(** [Math.round(x)]: the nearest integer, a tie going up. *)
Definition Math_round (x : number) : number :=
  match x with
  | Fin q => Fin (inject_Z (Qfloor (q + (1 # 2))))
  | _ => x
  end.

(** [Math.min(...xs)]: starts from [Infinity]; a [NaN] argument makes the
    result [NaN]. *)
Fixpoint Math_min_from (lowest : number) (xs : list number) : number :=
  match xs with
  | [] => lowest
  | NaN :: _ => NaN
  | x :: xs' => Math_min_from (if lt x lowest then x else lowest) xs'
  end.

Definition Math_min (xs : list number) : number := Math_min_from Infinity xs.

(** [Math.max(...xs)]: starts from [-Infinity]. *)
Fixpoint Math_max_from (highest : number) (xs : list number) : number :=
  match xs with
  | [] => highest
  | NaN :: _ => NaN
  | x :: xs' => Math_max_from (if lt highest x then x else highest) xs'
  end.

Definition Math_max (xs : list number) : number := Math_max_from NegInfinity xs.

(** [xs.length] as a number. *)
Definition length_of {A : Type} (xs : list A) : Q :=
  inject_Z (Z.of_nat (List.length xs)).

(** [Array.prototype.sort(compare)].  ECMAScript (2019 on) requires the
    sort to be stable: of two elements, the later one is placed first only
    when [compare(earlier, later) > 0].  The model inserts each element, from
    the last to the first, in front of the sorted rest and lets it move
    right past the elements it compares greater than. *)
Section Sort.
Context {A : Type} (compare : A -> A -> Q).

Fixpoint sort_insert (x : A) (sorted : list A) : list A :=
  match sorted with
  | [] => [x]
  | y :: rest =>
      if Qle_bool (compare x y) 0 then x :: y :: rest
      else y :: sort_insert x rest
  end.

Fixpoint Array_sort (xs : list A) : list A :=
  match xs with
  | [] => []
  | x :: rest => sort_insert x (Array_sort rest)
  end.

End Sort.

(** [x.toFixed(1)] of a finite number below 10^21: the integer [n] with
    [n / 10] nearest to [|x|] (the larger on a tie), printed with one
    fraction digit and the sign of [x]. *)
Definition toFixed1 (x : Q) : string :=
  let neg := negb (Qle_bool 0 x) in
  let n := Z.to_N (Qfloor (Qabs x * 10 + (1 # 2))) in
  ((if neg then "-" else "") ++ pretty (n / 10)%N ++ "." ++ pretty (n mod 10)%N)%string.

End JS.

(** ** The page: data model *)

Module Comparison.
Import JS.

Record RiskAssessment : Type := {
  red_flags : list string
}.

(** [interface ComparisonReport]; [report_id] is the field [id]. *)
Record ComparisonReport : Type := {
  report_id : Q;
  project_name : string;
  client_name : string;
  location : string;
  budget_min : Q;
  budget_max : Q;
  duration_months : Q;
  risk_score : Q;
  risk_level : string;
  participation_recommendation : string;
  deadline_date : string;
  risk_assessment : RiskAssessment
}.

(** The [key] argument of the comparator:
    ['budget_min' | 'budget_max' | 'risk_score' | 'duration_months']. *)
Inductive MetricKey : Type :=
  | K_budget_min
  | K_budget_max
  | K_risk_score
  | K_duration_months.

(** ** Metric comparator *)

Definition getBestValue (key : MetricKey) (reports : list ComparisonReport) : number :=
  match key with
  | K_risk_score => Math_min (map (fun r => Fin (risk_score r)) reports)
  | K_duration_months => Math_min (map (fun r => Fin (duration_months r)) reports)
  | K_budget_max => Math_max (map (fun r => Fin (budget_max r)) reports)
  | K_budget_min => Math_min (map (fun r => Fin (budget_min r)) reports)
  end.

Definition getWorstValue (key : MetricKey) (reports : list ComparisonReport) : number :=
  match key with
  | K_risk_score => Math_max (map (fun r => Fin (risk_score r)) reports)
  | K_duration_months => Math_max (map (fun r => Fin (duration_months r)) reports)
  | K_budget_max => Math_min (map (fun r => Fin (budget_max r)) reports)
  | K_budget_min => Math_max (map (fun r => Fin (budget_min r)) reports)
  end.

(** The three class strings [getValueColor] returns, under the names the
    specification gives them. *)
Definition BEST : string := "bg-green-100 text-green-800 font-bold".
Definition WORST : string := "bg-red-100 text-red-800".
Definition NEUTRAL : string := "".

(** [getValueColor]; the component state [reports] it closes over is an
    argument here. *)
Definition getValueColor (value : number) (key : MetricKey)
    (reports : list ComparisonReport) : string :=
  let best := getBestValue key reports in
  let worst := getWorstValue key reports in
  if strict_eq value best then BEST
  else if strict_eq value worst then WORST
  else NEUTRAL.

(** ** Opportunity scorer *)

(** The body of the [reports.map] callback of [findBestOpportunity]: the
    successive [score += ...] statements. *)
Definition score_of (r : ComparisonReport) : Q :=
  let score := 0 in
  let score := score + risk_score r * 10 in
  let score := score + length_of (red_flags (risk_assessment r)) * 5 in
  let score := score + (if (participation_recommendation r =? "NO")%string then 50 else 0) in
  let score := score + (if (participation_recommendation r =? "YES")%string then -20 else 0) in
  score.

(** The objects [{ report, score }] of the [scores] array. *)
Record Scored : Type := {
  report : ComparisonReport;
  score : Q
}.

Definition score_entry (r : ComparisonReport) : Scored :=
  {| report := r; score := score_of r |}.

(** The comparator [(a, b) => a.score - b.score]. *)
Definition by_score (a b : Scored) : Q := score a - score b.

(** The [scores] array after [scores.sort(...)]. *)
Definition sorted_scores (reports : list ComparisonReport) : list Scored :=
  Array_sort by_score (map score_entry reports).

(** The ranking of the specification: the reports of the sorted array. *)
Definition rank (reports : list ComparisonReport) : list ComparisonReport :=
  map report (sorted_scores reports).

(** [findBestOpportunity]: [null] is [None]; reading [.report] of an absent
    [scores[0]] would throw a [TypeError]. *)
Definition findBestOpportunity (reports : list ComparisonReport)
    : Completion (option ComparisonReport) :=
  if (List.length reports =? 0)%nat then Return None
  else
    match sorted_scores reports with
    | first :: _ => Return (Some (report first))
    | [] => Throw "TypeError"
    end.

(** ** Summary statistics *)

(** The four values of the "Summary Statistics" panel, before they are
    formatted for display ([toFixed(1)] of the average risk, the currency
    format of the average budget). *)
Record Summary : Type := {
  avgRisk : number;
  avgBudget : number;
  avgDuration : number;
  totalRedFlags : Q
}.

(** [xs.reduce(f, init)] *)
Definition reduce {A B : Type} (f : B -> A -> B) (init : B) (xs : list A) : B :=
  fold_left f xs init.

Definition summary_of (reports : list ComparisonReport) : Summary :=
  {|
    avgRisk :=
      div (Fin (reduce (fun sum r => sum + risk_score r) 0 reports))
          (Fin (length_of reports));
    avgBudget :=
      div (Fin (reduce (fun sum r => sum + (budget_min r + budget_max r) / 2) 0 reports))
          (Fin (length_of reports));
    avgDuration :=
      Math_round
        (div (Fin (reduce (fun sum r => sum + duration_months r) 0 reports))
             (Fin (length_of reports)));
    totalRedFlags :=
      reduce (fun sum r => sum + length_of (red_flags (risk_assessment r))) 0 reports
  |}.

(** Rendering the panel: the four expressions are plain arithmetic, no
    statement of the page throws. *)
Definition summarize (reports : list ComparisonReport) : Completion Summary :=
  Return (summary_of reports).

(** ** Recommendation banner *)

(** The text of the paragraph rendered under "AI Recommendation" when
    [bestOpportunity] is not [null] (JSX joins the lines of a text child
    with one space and drops the indentation). *)
Definition banner_text (best : ComparisonReport) : string :=
  ("Best opportunity: " ++ project_name best
   ++ " - Lowest risk (" ++ toFixed1 (risk_score best) ++ "),"
   ++ pretty (List.length (red_flags (risk_assessment best)))
   ++ " red flags, recommendation: " ++ participation_recommendation best)%string.

Definition banner (reports : list ComparisonReport) : Completion (option string) :=
  match findBestOpportunity reports with
  | Return (Some best) => Return (Some (banner_text best))
  | Return None => Return None
  | Throw e => Throw e
  end.

End Comparison.

(** ** The page over a store of objects

    In the running page the reports, the [reports] array and the arrays and
    objects the functions build are objects of one store, and the functions
    hold references to them.  This module runs the same functions over such a
    store: [reports.map] allocates a new array, the callback of
    [findBestOpportunity] allocates a [{ report, score }] object per report,
    and [scores.sort] overwrites the array it is called on. *)

Module Store.
Import JS Comparison.

Abbreviation loc := positive.

Inductive value : Type :=
  | VNumber (n : number)
  | VRef (l : loc).

Inductive object : Type :=
  | OReport (r : ComparisonReport)
  | OScored (report_ref : value) (score_val : Q)
  | OArray (elems : list value).

Abbreviation heap := (gmap loc object).

(** Computations over the store that may throw. *)
Definition M (A : Type) : Type := heap -> Completion (A * heap).

Definition ret {A : Type} (a : A) : M A := fun h => Return (a, h).

Definition throw {A : Type} (e : string) : M A := fun _ => Throw e.

Definition bind {A B : Type} (m : M A) (k : A -> M B) : M B :=
  fun h =>
    match m h with
    | Return (a, h') => k a h'
    | Throw e => Throw e
    end.

Notation "'let!' x ':=' m 'in' k" := (bind m (fun x => k))
  (at level 10, x pattern, m at level 100, k at level 200).

Definition alloc (o : object) : M loc :=
  fun h => let l := fresh (dom h) in Return (l, <[l := o]> h).

Definition load (l : loc) : M object :=
  fun h =>
    match h !! l with
    | Some o => Return (o, h)
    | None => Throw "TypeError"
    end.

Definition store (l : loc) (o : object) : M unit :=
  fun h => Return (tt, <[l := o]> h).

Fixpoint mapM {A B : Type} (f : A -> M B) (xs : list A) : M (list B) :=
  match xs with
  | [] => ret []
  | x :: rest =>
      let! y := f x in
      let! ys := mapM f rest in
      ret (y :: ys)
  end.

Definition load_array (l : loc) : M (list value) :=
  let! o := load l in
  match o with
  | OArray elems => ret elems
  | _ => throw "TypeError"
  end.

Definition load_report (v : value) : M ComparisonReport :=
  match v with
  | VRef l =>
      let! o := load l in
      match o with
      | OReport r => ret r
      | _ => throw "TypeError"
      end
  | VNumber _ => throw "TypeError"
  end.

Definition load_scored (v : value) : M (value * Q) :=
  match v with
  | VRef l =>
      let! o := load l in
      match o with
      | OScored r s => ret (r, s)
      | _ => throw "TypeError"
      end
  | VNumber _ => throw "TypeError"
  end.

(** [reports.map(r => f(r))] for a callback reading a numeric field: the
    result is a new array. *)
Definition Array_map_number (f : ComparisonReport -> number) (reports : loc) : M loc :=
  let! elems := load_array reports in
  let! nums := mapM (fun v => let! r := load_report v in ret (VNumber (f r))) elems in
  alloc (OArray nums).

(** The arguments [...arr] of a call (an object among them would coerce to
    [NaN]). *)
Definition spread (arr : loc) : M (list number) :=
  let! elems := load_array arr in
  ret (map (fun v => match v with VNumber n => n | VRef _ => NaN end) elems).

Definition min_of (f : ComparisonReport -> number) (reports : loc) : M number :=
  let! arr := Array_map_number f reports in
  let! xs := spread arr in
  ret (Math_min xs).

Definition max_of (f : ComparisonReport -> number) (reports : loc) : M number :=
  let! arr := Array_map_number f reports in
  let! xs := spread arr in
  ret (Math_max xs).

Definition getBestValue (key : MetricKey) (reports : loc) : M number :=
  match key with
  | K_risk_score => min_of (fun r => Fin (risk_score r)) reports
  | K_duration_months => min_of (fun r => Fin (duration_months r)) reports
  | K_budget_max => max_of (fun r => Fin (budget_max r)) reports
  | K_budget_min => min_of (fun r => Fin (budget_min r)) reports
  end.

Definition getWorstValue (key : MetricKey) (reports : loc) : M number :=
  match key with
  | K_risk_score => max_of (fun r => Fin (risk_score r)) reports
  | K_duration_months => max_of (fun r => Fin (duration_months r)) reports
  | K_budget_max => min_of (fun r => Fin (budget_max r)) reports
  | K_budget_min => max_of (fun r => Fin (budget_min r)) reports
  end.

Definition getValueColor (value : number) (key : MetricKey) (reports : loc) : M string :=
  let! best := getBestValue key reports in
  let! worst := getWorstValue key reports in
  ret (if strict_eq value best then BEST
       else if strict_eq value worst then WORST
       else NEUTRAL).

(** The comparator [(a, b) => a.score - b.score] reads the [score] of the
    objects it is given. *)
Definition read_score (v : value) : M (value * Q) :=
  let! s := load_scored v in
  ret (v, snd s).

(** [scores.sort((a, b) => a.score - b.score)]: the sorted elements are
    written back into the same array. *)
Definition Array_sort_by_score (scores : loc) : M unit :=
  let! elems := load_array scores in
  let! keyed := mapM read_score elems in
  store scores (OArray (map fst (Array_sort (fun a b => snd a - snd b) keyed))).

(** The callback [report => { ...; return { report, score } }]: a new
    object holding the reference to the report and its score. *)
Definition score_callback (v : value) : M value :=
  let! r := load_report v in
  let! e := alloc (OScored v (score_of r)) in
  ret (VRef e).

(** [findBestOpportunity]: the result is the reference held by the first
    object of the sorted array. *)
Definition findBestOpportunity (reports : loc) : M (option value) :=
  let! elems := load_array reports in
  if (List.length elems =? 0)%nat then ret None
  else
    let! entries := mapM score_callback elems in
    let! scores := alloc (OArray entries) in
    let! _ := Array_sort_by_score scores in
    let! sorted := load_array scores in
    match sorted with
    | first :: _ =>
        let! s := load_scored first in
        ret (Some (fst s))
    | [] => throw "TypeError"
    end.

(** The summary panel: the four [reduce] calls read the reports. *)
Definition summarize (reports : loc) : M Summary :=
  let! elems := load_array reports in
  let! rs := mapM load_report elems in
  ret (summary_of rs).

(** The store holds at [arr] the array of the references [lr.1] to the
    report objects [lr.2], for [lr] in [stored]. *)
Definition holds_reports (h : heap) (arr : loc)
    (stored : list (loc * ComparisonReport)) : Prop :=
  h !! arr = Some (OArray (map (fun lr => VRef (fst lr)) stored)) /\
  Forall (fun lr => h !! fst lr = Some (OReport (snd lr))) stored.

(** Every object of [h] is still there, unchanged, in [h']. *)
Definition preserved (h h' : heap) : Prop :=
  forall l o, h !! l = Some o -> h' !! l = Some o.

(** [m] leaves the objects at the locations [D] as they are. *)
Definition frames {A : Type} (D : gset loc) (m : M A) : Prop :=
  forall h a h', D ⊆ dom h -> m h = Return (a, h') ->
    D ⊆ dom h' /\ forall l, l ∈ D -> h' !! l = h !! l.

End Store.

(** ** The loader [loadComparison] *)

Module Loader.
Import JS Comparison.

(** [s.split(',')]: the pieces between the commas; the empty string has one
    (empty) piece. *)
Fixpoint split_comma (s : string) : list string :=
  match s with
  | EmptyString => [EmptyString]
  | String c rest =>
      if Ascii.eqb c "," then EmptyString :: split_comma rest
      else
        match split_comma rest with
        | piece :: pieces => String c piece :: pieces
        | [] => [String c EmptyString]
        end
  end.

(** What the loader does to its surroundings, in order. *)
Inductive Effect : Type :=
  | Navigate (path : string)
  | Post (url : string) (body : list number)
  | SetReports (reports : list ComparisonReport)
  | ConsoleError
  | SetLoading (loading : bool).

Section WithNumber.

(** The global function [Number], applied to each piece by [.map(Number)]. *)
Variable Number : string -> number.

(** [searchParams.get('ids')?.split(',').map(Number) || []]; an absent
    parameter is [None]. *)
Definition parse_ids (ids_param : option string) : list number :=
  match ids_param with
  | Some s => map Number (split_comma s)
  | None => []
  end.

(** [loadComparison]; [post ids] is the outcome of awaiting
    [axios.post('/api/reports/compare', ids)]: the reports of the response,
    or [None] when the request is rejected.  The [try] block has a [catch]
    and no [throw], so the function always completes normally. *)
Definition loadComparison (ids_param : option string)
    (post : list number -> option (list ComparisonReport))
    : Completion (list Effect) :=
  let ids := parse_ids ids_param in
  if (List.length ids <? 2)%nat then
    Return [Navigate "/"; SetLoading false]
  else
    match post ids with
    | Some reports =>
        Return [Post "/api/reports/compare" ids; SetReports reports; SetLoading false]
    | None =>
        Return [Post "/api/reports/compare" ids; ConsoleError; SetLoading false]
    end.

End WithNumber.

(** [Number] on the strings a list of identifiers is made of: the empty
    string is 0, a string of decimal digits is its value, and a string with
    any other character is taken to [NaN]. *)
Fixpoint digits_value (acc : N) (s : string) : option N :=
  match s with
  | EmptyString => Some acc
  | String c rest =>
      let n := N_of_ascii c in
      if ((48 <=? n) && (n <=? 57))%N then digits_value (acc * 10 + (n - 48)) rest
      else None
  end.

Definition Number_decimal (s : string) : number :=
  match digits_value 0 s with
  | Some n => Fin (inject_Z (Z.of_N n))
  | None => NaN
  end.

End Loader.

(** ** The specification's vocabulary *)

Module Spec.
Import JS Comparison.

(** The recommendation penalty of the score formula. *)
Definition penalty (recommendation : string) : Q :=
  if (recommendation =? "NO")%string then 50
  else if (recommendation =? "YES")%string then -20
  else 0.

(** The value a metric reads from a report. *)
Definition metric_value (key : MetricKey) (r : ComparisonReport) : Q :=
  match key with
  | K_budget_min => budget_min r
  | K_budget_max => budget_max r
  | K_risk_score => risk_score r
  | K_duration_months => duration_months r
  end.

(** The directionality table. *)
Inductive Extreme : Type := Min | Max.

Definition best_is (key : MetricKey) : Extreme :=
  match key with
  | K_risk_score => Min
  | K_duration_months => Min
  | K_budget_max => Max
  | K_budget_min => Min
  end.

Definition worst_is (key : MetricKey) : Extreme :=
  match key with
  | K_risk_score => Max
  | K_duration_months => Max
  | K_budget_max => Min
  | K_budget_min => Max
  end.

(** [m] is the least (greatest) of the values [xs]. *)
Definition is_extreme (e : Extreme) (m : Q) (xs : list Q) : Prop :=
  In m xs /\
  forall x, In x xs ->
    match e with
    | Min => m <= x
    | Max => x <= m
    end.

(** [classify] with the order of the two checks as the specification words
    it: the worst extreme is tested first. *)
Definition classify_worst_first (value : number) (key : MetricKey)
    (reports : list ComparisonReport) : string :=
  if strict_eq value (getWorstValue key reports) then WORST
  else if strict_eq value (getBestValue key reports) then BEST
  else NEUTRAL.

(** The sum and the arithmetic mean of a list of values. *)
Definition sum (xs : list Q) : Q := fold_right Qplus 0 xs.

Definition mean (xs : list Q) : Q := sum xs / JS.length_of xs.

(** [z] is an integer nearest to [x]. *)
Definition nearest_integer (z : Z) (x : Q) : Prop :=
  inject_Z z - (1 # 2) <= x /\ x <= inject_Z z + (1 # 2).

(** Ascending by a numeric key: every element is at most the later ones. *)
Definition ascending_by {A : Type} (key : A -> Q) (l : list A) : Prop :=
  StronglySorted (fun a b => key a <= key b) l.

(** The comparator [(a, b) => key(a) - key(b)]. *)
Definition by_key {A : Type} (key : A -> Q) (a b : A) : Q := key a - key b.

(** [r] stands before [r'] in [l]. *)
Definition before {A : Type} (r r' : A) (l : list A) : Prop :=
  exists l1 l2 l3, l = l1 ++ r :: l2 ++ r' :: l3.

(** The two error classes of the specification's taxonomy. *)
Definition EmptyInputError : string := "EmptyInputError".
Definition InsufficientSelectionError : string := "InsufficientSelectionError".

End Spec.

(** ** Reports used in the examples *)

Module Examples.
Import JS Comparison.

(** A report with the given name, budget bounds, duration, risk score,
    recommendation and red flags. *)
Definition example_report (name : string) (bmin bmax months risk : Q)
    (recommendation : string) (flags : list string) : ComparisonReport :=
  {| report_id := 1;
     project_name := name;
     client_name := "City";
     location := "Austin";
     budget_min := bmin;
     budget_max := bmax;
     duration_months := months;
     risk_score := risk;
     risk_level := "MEDIUM";
     participation_recommendation := recommendation;
     deadline_date := "2025-01-31";
     risk_assessment := {| red_flags := flags |} |}.

(** Example 1 of the specification. *)
Definition report_A : ComparisonReport :=
  example_report "A" 50 100 6 2 "YES" [].

Definition report_B : ComparisonReport :=
  example_report "B" 50 200 6 8 "NO" ["bond"; "penalty"; "schedule"]%string.

(** Example 2: a third report, with [budget_max] 150. *)
Definition report_C : ComparisonReport :=
  example_report "C" 50 150 9 5 "MAYBE" ["bond"]%string.

(** A safer report that is advised against, and a riskier one that is
    recommended. *)
Definition report_safe_declined : ComparisonReport :=
  example_report "Depot" 10 20 4 2 "NO" [].

Definition report_riskier_recommended : ComparisonReport :=
  example_report "Bridge" 10 20 4 3 "YES" [].

(** A store with the reports B and A and the array [[B, A]]. *)
Definition example_heap : gmap positive Store.object :=
  <[3%positive := Store.OArray [Store.VRef 1%positive; Store.VRef 2%positive]]>
    (<[2%positive := Store.OReport report_A]>
       (<[1%positive := Store.OReport report_B]> ∅)).

End Examples.

(** ** String and array built-ins used by the other pages *)

Module JSString.

(** [s.startsWith(p)] *)
Definition startsWith (s p : string) : bool := String.prefix p s.

(** [s.endsWith(suffix)]: [suffix] is [s] or the end of a tail of [s]. *)
Fixpoint endsWith (s suffix : string) : bool :=
  (s =? suffix)%string ||
  match s with
  | EmptyString => false
  | String _ rest => endsWith rest suffix
  end.

(** [s.slice(0, -1)]: [s] without its last character. *)
Fixpoint slice_0_minus1 (s : string) : string :=
  match s with
  | EmptyString => EmptyString
  | String c EmptyString => EmptyString
  | String c rest => String c (slice_0_minus1 rest)
  end.

(** [pieces.join(sep)] of an array of strings. *)
Fixpoint Array_join (sep : string) (pieces : list string) : string :=
  match pieces with
  | [] => EmptyString
  | x :: rest =>
      match rest with
      | [] => x
      | _ :: _ => (x ++ sep ++ Array_join sep rest)%string
      end
  end.

(** [String(n)] of an integer [n] below 10^21 in absolute value (from there
    on JavaScript prints an exponent). *)
Definition Number_toString (n : Z) : string := pretty n.

(** The string has no comma. *)
Definition comma_free (s : string) : Prop :=
  forall c, In c (list_ascii_of_string s) -> c <> ","%char.

(** The number of commas of a string. *)
Fixpoint count_commas (s : string) : nat :=
  match s with
  | EmptyString => O
  | String c rest => if Ascii.eqb c "," then S (count_commas rest) else count_commas rest
  end.

(** The pattern [prev => prev.includes(x) ? prev.filter(y => y !== x)
    : [...prev, x]] of the two selection toggles, over values compared by
    [eqb]. *)
Definition Array_toggle {A : Type} (eqb : A -> A -> bool) (x : A) (prev : list A) : list A :=
  if existsb (fun y => eqb y x) prev
  then List.filter (fun y => negb (eqb y x)) prev
  else prev ++ [x].

End JSString.

(** ** Cells of the comparison table (src/pages/Comparison.tsx) *)

Module ComparisonCells.
Import JS Comparison.

(** The class of a cell of the "Red Flags" row. *)
Definition redFlagsCellClass (report : ComparisonReport) : string :=
  let count := List.length (red_flags (risk_assessment report)) in
  if (count =? 0)%nat then "bg-green-100 text-green-800 font-bold"
  else if (3 <=? count)%nat then "bg-red-100 text-red-800"
  else "".

End ComparisonCells.

(** ** Dashboard: selection of the reports to compare *)

Module Dashboard.
Import JSString.

(** [toggleReportSelection]; report identifiers are integers. *)
Definition toggleReportSelection (reportId : Z) (prev : list Z) : list Z :=
  Array_toggle Z.eqb reportId prev.

(** The "Compare (n)" button is rendered when at least two reports are
    selected. *)
Definition compare_button_shown (selectedReports : list Z) : bool :=
  (2 <=? List.length selectedReports)%nat.

(** [handleCompare]: the path it navigates to, if it navigates. *)
Definition handleCompare (selectedReports : list Z) : option string :=
  if (2 <=? List.length selectedReports)%nat && (List.length selectedReports <=? 5)%nat
  then Some ("/compare?ids=" ++ Array_join "," (map Number_toString selectedReports))%string
  else None.

End Dashboard.

(** ** Report page: expanded risk categories *)

Module ReportDetail.
Import JSString.

(** [toggleRiskCategory] *)
Definition toggleRiskCategory (categoryName : string) (prev : list string) : list string :=
  Array_toggle String.eqb categoryName prev.

End ReportDetail.

(** ** Upload page: simulated progress (src/pages/Upload.tsx) *)

Module Upload.



End Upload.

(** ** Configuration (src/config.ts) *)

Module Config.
Import JSString.

(** [env || fallback] for an environment variable that is a string or is
    undefined. *)
Definition or_default (env : option string) (fallback : string) : string :=
  match env with
  | Some value => if (value =? "")%string then fallback else value
  | None => fallback
  end.

(** [config.apiUrl] *)
Definition apiUrl (VITE_API_URL : option string) : string :=
  or_default VITE_API_URL "http://localhost:8000".

(** [getApiUrl]; [config_apiUrl] is [config.apiUrl], an absent [path]
    defaults to the empty string. *)
Definition getApiUrl (config_apiUrl : string) (path : option string) : string :=
  let path := match path with Some p => p | None => EmptyString end in
  let baseUrl :=
    if endsWith config_apiUrl "/" then slice_0_minus1 config_apiUrl
    else config_apiUrl in
  let apiPath := if startsWith path "/" then path else ("/" ++ path)%string in
  (baseUrl ++ apiPath)%string.

End Config.

(** ** Session and private routes (src/App.tsx) *)

Module App.

(** What a route element renders. *)
Inductive Rendered : Type :=
  | Children
  | NavigateTo (path : string).

(** [PrivateRoute], over the content of [localStorage]: a missing or empty
    token is falsy. *)
Definition PrivateRoute (localStorage : gmap string string) : Rendered :=
  match localStorage !! "auth_token"%string with
  | Some token => if (token =? "")%string then NavigateTo "/login" else Children
  | None => NavigateTo "/login"
  end.

(** [handleLogout]: the storage it leaves and the path it navigates to. *)
Definition handleLogout (localStorage : gmap string string)
    : gmap string string * string :=
  let localStorage := delete "auth_token"%string localStorage in
  let localStorage := delete "user"%string localStorage in
  (localStorage, "/login"%string).

End App.

(** ** JavaScript numbers as binary64 floating-point numbers

    A JavaScript number is an IEEE 754 binary64 value and [+], [-], [*],
    [/] round to nearest, ties to even.  [PrimFloat.float] is that format
    with that rounding, and the Floats library specifies each operation
    over [SpecFloat.spec_float] (sign, mantissa, exponent).  The scorer and
    the summary are run on these numbers below, since rounding decides
    which scores tie and which way a mean is rounded. *)

Module JS64.
Import PrimFloat SpecFloat FloatOps.

Definition number : Type := float.

(** The value of a finite number as a rational ([0] for the zeros; [0]
    also for [NaN] and the infinities, which have no value). *)
Definition value (x : number) : Q :=
  match Prim2SF x with
  | S754_finite s m e => inject_Z (cond_Zopp s (Zpos m)) * 2 ^ e
  | _ => 0
  end.

(** [Number.isFinite(x)] *)
Definition isFinite (x : number) : bool :=
  match Prim2SF x with
  | S754_finite _ _ _ | S754_zero _ => true
  | _ => false
  end.

(** The number of an integer of magnitude below 2^63 (the conversion is
    exact below 2^53). *)
Definition of_integer (z : Z) : number :=
  match z with
  | Z0 => zero
  | Zpos _ => of_uint63 (Uint63.of_Z z)
  | Zneg n => opp (of_uint63 (Uint63.of_Z (Zpos n)))
  end.

(** [xs.length]: an array has fewer than 2^32 elements. *)
Definition length_of {A : Type} (xs : list A) : number :=
  of_integer (Z.of_nat (List.length xs)).

(** [Math.round(x)]: [x] itself when it is not finite or is an integer
    (every number with a non-negative exponent is one); otherwise
    [floor(x + 1/2)] computed exactly, with the sign of [x] when that is
    zero. *)
Definition Math_round (x : number) : number :=
  match Prim2SF x with
  | S754_finite s m e =>
      if (0 <=? e)%Z then x
      else
        match Qfloor (value x + (1 # 2)) with
        | Z0 => if s then neg_zero else zero
        | z => of_integer z
        end
  | _ => x
  end.

(** [Array.prototype.sort(compare)], stable as in [JS.Array_sort]: the
    later element is placed first only when [compare(earlier, later) > 0],
    which is false when the comparator returns [NaN].  ECMAScript fixes the
    sorted order for a consistent comparator only; [(a, b) => a - b] is
    one on numbers other than [NaN], and the statements about the order
    are made for such numbers. *)
Section Sort.
Context {A : Type} (compare : A -> A -> number).

Fixpoint sort_insert (x : A) (sorted : list A) : list A :=
  match sorted with
  | [] => [x]
  | y :: rest =>
      if ltb zero (compare x y) then y :: sort_insert x rest
      else x :: y :: rest
  end.

Fixpoint Array_sort (xs : list A) : list A :=
  match xs with
  | [] => []
  | x :: rest => sort_insert x (Array_sort rest)
  end.

End Sort.

End JS64.

(** ** The opportunity scorer and the summary over binary64 numbers *)

Module Comparison64.
Import JS JS64 PrimFloat.
Local Open Scope float_scope.

(** [interface ComparisonReport] with its numeric fields as numbers of the
    running program. *)
Record ComparisonReport : Type := {
  report_id : number;
  project_name : string;
  client_name : string;
  location : string;
  budget_min : number;
  budget_max : number;
  duration_months : number;
  risk_score : number;
  risk_level : string;
  participation_recommendation : string;
  deadline_date : string;
  risk_assessment : Comparison.RiskAssessment
}.

(** The callback of [reports.map] in [findBestOpportunity]; every
    [score += ...] rounds. *)
Definition score_of (r : ComparisonReport) : number :=
  let score := 0 in
  let score := score + risk_score r * 10 in
  let score := score + length_of (Comparison.red_flags (risk_assessment r)) * 5 in
  let score := score + (if (participation_recommendation r =? "NO")%string then 50 else 0) in
  let score := score + (if (participation_recommendation r =? "YES")%string then -20 else 0) in
  score.

Record Scored : Type := {
  report : ComparisonReport;
  score : number
}.

Definition score_entry (r : ComparisonReport) : Scored :=
  {| report := r; score := score_of r |}.

(** The comparator [(a, b) => a.score - b.score]. *)
Definition by_score (a b : Scored) : number := score a - score b.

Definition sorted_scores (reports : list ComparisonReport) : list Scored :=
  Array_sort by_score (map score_entry reports).

Definition rank (reports : list ComparisonReport) : list ComparisonReport :=
  map report (sorted_scores reports).

Definition findBestOpportunity (reports : list ComparisonReport)
    : Completion (option ComparisonReport) :=
  if (List.length reports =? 0)%nat then Return None
  else
    match sorted_scores reports with
    | first :: _ => Return (Some (report first))
    | [] => Throw "TypeError"
    end.

(** The four values of the summary panel, before formatting. *)
Record Summary : Type := {
  avgRisk : number;
  avgBudget : number;
  avgDuration : number;
  totalRedFlags : number
}.

Definition reduce {A B : Type} (f : B -> A -> B) (init : B) (xs : list A) : B :=
  fold_left f xs init.

Definition summary_of (reports : list ComparisonReport) : Summary :=
  {|
    avgRisk :=
      reduce (fun sum r => sum + risk_score r) 0 reports / length_of reports;
    avgBudget :=
      reduce (fun sum r => sum + (budget_min r + budget_max r) / 2) 0 reports
      / length_of reports;
    avgDuration :=
      Math_round
        (reduce (fun sum r => sum + duration_months r) 0 reports / length_of reports);
    totalRedFlags :=
      reduce (fun sum r => sum + length_of (Comparison.red_flags (risk_assessment r)))
             0 reports
  |}.

Definition summarize (reports : list ComparisonReport) : Completion Summary :=
  Return (summary_of reports).

End Comparison64.

(** ** The specification's vocabulary over binary64 numbers *)

Module Spec64.
Import JS64 Comparison64 PrimFloat.

(** The comparator [(a, b) => key(a) - key(b)]. *)
Definition by_key {A : Type} (key : A -> number) (a b : A) : number :=
  sub (key a) (key b).

(** Ascending by a numeric key: every element is [<=] the later ones. *)
Definition ascending_by {A : Type} (key : A -> number) (l : list A) : Prop :=
  StronglySorted (fun a b => leb (key a) (key b) = true) l.

(** No element has the key [NaN]. *)
Definition no_NaN {A : Type} (key : A -> number) (l : list A) : Prop :=
  Forall (fun x => is_nan (key x) = false) l.

(** The report's computed score is identical to [s] ([===]). *)
Definition has_score (s : number) (r : ComparisonReport) : bool :=
  eqb (score_of r) s.

(** The sum of a list of numbers, accumulated from the left, starting
    from 0. *)
Definition sum (xs : list number) : number := fold_left add xs zero.

(** The recommendation penalty of the score formula. *)
Definition penalty (recommendation : string) : number :=
  if (recommendation =? "NO")%string then 50%float
  else if (recommendation =? "YES")%string then (-20)%float
  else 0%float.

(** The number of red flags of all the reports together. *)
Definition total_flags (reports : list ComparisonReport) : Z :=
  fold_right Z.add 0%Z
    (map (fun r => Z.of_nat (List.length (Comparison.red_flags (risk_assessment r))))
         reports).

(** The budget midpoint of a report. *)
Definition midpoint (r : ComparisonReport) : number :=
  div (add (budget_min r) (budget_max r)) 2%float.

(** [shown] is [x] rounded to a nearest integer; a number that is not
    finite stays as it is. *)
Definition rounded (x shown : number) : Prop :=
  if isFinite x then
    exists z : Z,
      Spec.nearest_integer z (value x) /\
      isFinite shown = true /\ value shown == inject_Z z
  else shown = x.

End Spec64.

(** ** Binary64 numbers compared through integers *)

Module Binary64.
Import SpecFloat.

(** A key whose lexicographic order is the order of the numbers other than
    [NaN]: the sign class, then the exponent, then the mantissa. *)
Definition order_key (f : spec_float) : Z * (Z * Z) :=
  match f with
  | S754_zero _ => (0, (0, 0))
  | S754_infinity false => (2, (0, 0))
  | S754_infinity true => (-2, (0, 0))
  | S754_nan => (0, (0, 0))
  | S754_finite false m e => (1, (e, Zpos m))
  | S754_finite true m e => (-1, (- e, Zneg m))
  end%Z.

Definition key (x : PrimFloat.float) : Z * (Z * Z) := order_key (FloatOps.Prim2SF x).

Definition lex_compare (a b : Z * (Z * Z)) : comparison :=
  match Z.compare (fst a) (fst b) with
  | Eq => match Z.compare (fst (snd a)) (fst (snd b)) with
          | Eq => Z.compare (snd (snd a)) (snd (snd b))
          | c => c
          end
  | c => c
  end.

Definition lex_lt (a b : Z * (Z * Z)) : Prop :=
  (fst a < fst b \/
   (fst a = fst b /\
    (fst (snd a) < fst (snd b) \/
     (fst (snd a) = fst (snd b) /\ snd (snd a) < snd (snd b)))))%Z.

(** Not [NaN]. *)
Definition is_number (x : spec_float) : bool :=
  match x with
  | S754_nan => false
  | _ => true
  end.

(** Not [NaN], not negative and not [-0]. *)
Definition nonnegative (x : spec_float) : bool :=
  match x with
  | S754_zero false | S754_finite false _ _ | S754_infinity false => true
  | _ => false
  end.

Definition finite_or_zero (x : spec_float) : bool :=
  match x with
  | S754_zero _ | S754_finite _ _ _ => true
  | _ => false
  end.

(** A mantissa and an exponent of the format: 53 digits, fewer only at the
    least exponent. *)
Definition canonical (m : positive) (e : Z) : Prop :=
  (-1074 <= e <= 971 /\
   Zpos (digits2_pos m) <= 53 /\
   (-1074 < e -> Zpos (digits2_pos m) = 53))%Z.

End Binary64.

(** ** Reports used in the binary64 examples *)

Module Examples64.
Import JS64 Comparison64 PrimFloat.
Local Open Scope float_scope.
#[local] Set Warnings "-inexact-float".

Definition example_report (name : string) (bmin bmax months risk : number)
    (recommendation : string) (flags : list string) : ComparisonReport :=
  {| report_id := 1;
     project_name := name;
     client_name := "City";
     location := "Austin";
     budget_min := bmin;
     budget_max := bmax;
     duration_months := months;
     risk_score := risk;
     risk_level := "MEDIUM";
     participation_recommendation := recommendation;
     deadline_date := "2025-01-31";
     risk_assessment := {| Comparison.red_flags := flags |} |}.

(** Example 1 of the specification. *)
Definition report_A64 : ComparisonReport :=
  example_report "A" 50 100 6 2 "YES" [].

Definition report_B64 : ComparisonReport :=
  example_report "B" 50 200 6 8 "NO" ["bond"; "penalty"; "schedule"]%string.

(** Two reports whose computed scores are both 41: 3.1 * 10 + 2 * 5 and
    4.1 * 10 round to the same number.  Their durations are 0.3 and 0.7
    months. *)
Definition report_quay : ComparisonReport :=
  example_report "Quay" 10 20 0.3 3.1 "MAYBE" ["bond"; "penalty"]%string.

Definition report_mill : ComparisonReport :=
  example_report "Mill" 10 20 0.7 4.1 "MAYBE" [].

(** Durations 13.37, 9.68 and 2.45. *)
Definition report_pier : ComparisonReport :=
  example_report "Pier" 10 20 13.37 5 "MAYBE" [].

Definition report_yard : ComparisonReport :=
  example_report "Yard" 10 20 9.68 5 "MAYBE" [].

Definition report_shed : ComparisonReport :=
  example_report "Shed" 10 20 2.45 5 "MAYBE" [].

End Examples64.

Import JS Comparison Spec Examples.

(** * Properties *)

(** ** Comparisons of rationals as booleans *)

Lemma Qle_bool_false (a b : Q) : Qle_bool a b = false <-> b < a.
Proof.
  split; intros H.
  - apply Qnot_le_lt. intros Hle. apply Qle_bool_iff in Hle. congruence.
  - destruct (Qle_bool a b) eqn:E; [|reflexivity].
    apply Qle_bool_iff in E. exfalso. lra.
Qed.

Lemma Qeq_bool_refl' (a : Q) : Qeq_bool a a = true.
Proof. apply Qeq_bool_iff. reflexivity. Qed.

Lemma Qeq_bool_false (a b : Q) : Qeq_bool a b = false <-> ~ a == b.
Proof.
  split; intros H.
  - intros Heq. apply Qeq_bool_iff in Heq. congruence.
  - destruct (Qeq_bool a b) eqn:E; [|reflexivity].
    apply Qeq_bool_iff in E. contradiction.
Qed.

(** ** Opportunity score *)



(** ** Metric comparator *)

Lemma Math_min_from_Fin (qs : list Q) :
  forall a, exists m,
    Math_min_from (Fin a) (map Fin qs) = Fin m /\ is_extreme Min m (a :: qs).
Proof.
  induction qs as [|x qs IH]; intros a; simpl.
  - exists a. split; [reflexivity|]. split; [now left|].
    intros y [<-|[]]. apply Qle_refl.
  - destruct (Qle_bool a x) eqn:E; simpl.
    + apply Qle_bool_iff in E.
      destruct (IH a) as (m & Hm & Hin & Hle). exists m. split; [exact Hm|].
      split.
      * destruct Hin as [<-|Hin]; [now left|right; now right].
      * intros y [<-|[<-|Hy]].
        -- apply Hle. now left.
        -- apply Qle_trans with a; [apply Hle; now left|exact E].
        -- apply Hle. now right.
    + apply Qle_bool_false in E.
      destruct (IH x) as (m & Hm & Hin & Hle). exists m. split; [exact Hm|].
      split.
      * right. exact Hin.
      * intros y [<-|Hy].
        -- apply Qle_trans with x; [apply Hle; now left|apply Qlt_le_weak, E].
        -- apply Hle. exact Hy.
Qed.

Lemma Math_max_from_Fin (qs : list Q) :
  forall a, exists m,
    Math_max_from (Fin a) (map Fin qs) = Fin m /\ is_extreme Max m (a :: qs).
Proof.
  induction qs as [|x qs IH]; intros a; simpl.
  - exists a. split; [reflexivity|]. split; [now left|].
    intros y [<-|[]]. apply Qle_refl.
  - destruct (Qle_bool x a) eqn:E; simpl.
    + apply Qle_bool_iff in E.
      destruct (IH a) as (m & Hm & Hin & Hle). exists m. split; [exact Hm|].
      split.
      * destruct Hin as [<-|Hin]; [now left|right; now right].
      * intros y [<-|[<-|Hy]].
        -- apply Hle. now left.
        -- apply Qle_trans with a; [exact E|apply Hle; now left].
        -- apply Hle. now right.
    + apply Qle_bool_false in E.
      destruct (IH x) as (m & Hm & Hin & Hle). exists m. split; [exact Hm|].
      split.
      * right. exact Hin.
      * intros y [<-|Hy].
        -- apply Qle_trans with x; [apply Qlt_le_weak, E|apply Hle; now left].
        -- apply Hle. exact Hy.
Qed.

Lemma Math_min_Fin (qs : list Q) :
  qs <> [] -> exists m, Math_min (map Fin qs) = Fin m /\ is_extreme Min m qs.
Proof.
  destruct qs as [|q qs]; [congruence|]. intros _.
  unfold Math_min. simpl. apply Math_min_from_Fin.
Qed.

Lemma Math_max_Fin (qs : list Q) :
  qs <> [] -> exists m, Math_max (map Fin qs) = Fin m /\ is_extreme Max m qs.
Proof.
  destruct qs as [|q qs]; [congruence|]. intros _.
  unfold Math_max. simpl. apply Math_max_from_Fin.
Qed.

Lemma map_field_nonempty {A B : Type} (f : A -> B) (xs : list A) :
  xs <> [] -> map f xs <> [].
Proof. destruct xs; [congruence|discriminate]. Qed.

Lemma best_worst_values (key : MetricKey) (reports : list ComparisonReport) :
  reports <> [] ->
  exists b w,
    getBestValue key reports = Fin b /\
    getWorstValue key reports = Fin w /\
    is_extreme (best_is key) b (map (metric_value key) reports) /\
    is_extreme (worst_is key) w (map (metric_value key) reports).
Proof.
  intros Hne.
  pose proof (map_field_nonempty (metric_value key) reports Hne) as Hne'.
  destruct (Math_min_Fin _ Hne') as (lo & Hlo & Hmin).
  destruct (Math_max_Fin _ Hne') as (hi & Hhi & Hmax).
  rewrite map_map in Hlo, Hhi.
  destruct key; simpl in *.
  - exists lo, hi. auto.
  - exists hi, lo. auto.
  - exists lo, hi. auto.
  - exists lo, hi. auto.
Qed.

(** C2: for every non-empty report set and every metric, [getBestValue] and
    [getWorstValue] are the extremes the directionality table names (least
    risk, least duration, greatest [budget_max], least [budget_min] are
    best; the opposite extremes are worst); for the [budget_max] values
    100, 200, 150 the best is 200 and the worst is 100. *)
Theorem C2_directionality :
  (forall (key : MetricKey) (reports : list ComparisonReport),
     reports <> [] ->
     exists b w,
       getBestValue key reports = Fin b /\
       getWorstValue key reports = Fin w /\
       is_extreme (best_is key) b (map (metric_value key) reports) /\
       is_extreme (worst_is key) w (map (metric_value key) reports)) /\
  (best_is K_risk_score = Min /\ worst_is K_risk_score = Max) /\
  (best_is K_duration_months = Min /\ worst_is K_duration_months = Max) /\
  (best_is K_budget_max = Max /\ worst_is K_budget_max = Min) /\
  (best_is K_budget_min = Min /\ worst_is K_budget_min = Max) /\
  map budget_max [report_A; report_B; report_C] = [100; 200; 150] /\
  getBestValue K_budget_max [report_A; report_B; report_C] = Fin 200 /\
  getWorstValue K_budget_max [report_A; report_B; report_C] = Fin 100.
Proof.
  split; [exact best_worst_values|].
  repeat split; reflexivity.
Qed.

Lemma strict_eq_Fin_refl (q : Q) : strict_eq (Fin q) (Fin q) = true.
Proof. simpl. apply Qeq_bool_refl'. Qed.

Lemma getValueColor_cases (value : number) (key : MetricKey)
    (reports : list ComparisonReport) :
  (strict_eq value (getBestValue key reports) = true ->
   getValueColor value key reports = BEST) /\
  (strict_eq value (getBestValue key reports) = false ->
   strict_eq value (getWorstValue key reports) = true ->
   getValueColor value key reports = WORST) /\
  (strict_eq value (getBestValue key reports) = false ->
   strict_eq value (getWorstValue key reports) = false ->
   getValueColor value key reports = NEUTRAL).
Proof.
  unfold getValueColor.
  repeat split; intros Hb; try intros Hw; rewrite Hb; try rewrite Hw; reflexivity.
Qed.

Lemma getValueColor_single (key : MetricKey) (r : ComparisonReport) :
  getBestValue key [r] = Fin (metric_value key r) /\
  getWorstValue key [r] = Fin (metric_value key r) /\
  getValueColor (Fin (metric_value key r)) key [r] = BEST.
Proof.
  assert (Hb : getBestValue key [r] = Fin (metric_value key r))
    by (destruct key; reflexivity).
  assert (Hw : getWorstValue key [r] = Fin (metric_value key r))
    by (destruct key; reflexivity).
  repeat split; trivial.
  unfold getValueColor. rewrite Hb, strict_eq_Fin_refl. reflexivity.
Qed.

Lemma getValueColor_extremes (key : MetricKey) (reports : list ComparisonReport) :
  reports <> [] ->
  getValueColor (getBestValue key reports) key reports = BEST /\
  getValueColor (getWorstValue key reports) key reports =
    (if strict_eq (getWorstValue key reports) (getBestValue key reports)
     then BEST else WORST).
Proof.
  intros Hne.
  destruct (best_worst_values key reports Hne) as (b & w & Hb & Hw & _).
  unfold getValueColor. rewrite Hb, Hw, !strict_eq_Fin_refl.
  split; [reflexivity|]. destruct (strict_eq (Fin w) (Fin b)); reflexivity.
Qed.

(** C3 as stated fails: with the worst extreme tested first, as the claim
    words it, the only report of a single-report set is classified WORST,
    while the page classifies it BEST. *)
Lemma C3_check_order_counterexample :
  classify_worst_first (Fin (risk_score report_A)) K_risk_score [report_A] = WORST /\
  getValueColor (Fin (risk_score report_A)) K_risk_score [report_A] = BEST /\
  WORST <> BEST.
Proof. split; [reflexivity|]. split; [reflexivity|discriminate]. Qed.

(** C3, amended: [getValueColor] tests equality with the best extreme
    first and with the worst extreme second: it returns BEST when the value
    equals the best extreme, WORST when it equals the worst extreme and not
    the best one, and NEUTRAL otherwise.  So in a single-report set, where
    both extremes are the report's value, the report classifies BEST; in
    every non-empty set the best extreme classifies BEST and the worst
    extreme WORST unless it equals the best one. *)
Theorem C3_classification :
  (forall (value : number) (key : MetricKey) (reports : list ComparisonReport),
     (strict_eq value (getBestValue key reports) = true ->
      getValueColor value key reports = BEST) /\
     (strict_eq value (getBestValue key reports) = false ->
      strict_eq value (getWorstValue key reports) = true ->
      getValueColor value key reports = WORST) /\
     (strict_eq value (getBestValue key reports) = false ->
      strict_eq value (getWorstValue key reports) = false ->
      getValueColor value key reports = NEUTRAL)) /\
  (forall (key : MetricKey) (r : ComparisonReport),
     getBestValue key [r] = Fin (metric_value key r) /\
     getWorstValue key [r] = Fin (metric_value key r) /\
     getValueColor (Fin (metric_value key r)) key [r] = BEST) /\
  (forall (key : MetricKey) (reports : list ComparisonReport),
     reports <> [] ->
     getValueColor (getBestValue key reports) key reports = BEST /\
     getValueColor (getWorstValue key reports) key reports =
       (if strict_eq (getWorstValue key reports) (getBestValue key reports)
        then BEST else WORST)) /\
  map (fun r => getValueColor (Fin (budget_max r)) K_budget_max
                  [report_A; report_B; report_C])
      [report_A; report_B; report_C] = [WORST; BEST; NEUTRAL].
Proof.
  split; [exact getValueColor_cases|].
  split; [exact getValueColor_single|].
  split; [exact getValueColor_extremes|].
  reflexivity.
Qed.

(** ** Sorting by a numeric key *)

Section SortByKey.
Context {A : Type} (key : A -> Q).



Lemma sort_insert_perm (x : A) (l : list A) :
  Permutation (sort_insert (by_key key) x l) (x :: l).
Proof.
  induction l as [|y l IH]; simpl.
  - apply Permutation_refl.
  - destruct (Qle_bool (by_key key x y) 0).
    + apply Permutation_refl.
    + apply Permutation_trans with (y :: x :: l).
      * apply perm_skip, IH.
      * apply perm_swap.
Qed.

Lemma Array_sort_perm (l : list A) : Permutation (Array_sort (by_key key) l) l.
Proof.
  induction l as [|x l IH]; simpl.
  - apply perm_nil.
  - apply Permutation_trans with (x :: Array_sort (by_key key) l).
    + apply sort_insert_perm.
    + apply perm_skip, IH.
Qed.



End SortByKey.

Lemma filter_first_split {A : Type} (P : A -> bool) (l : list A) :
  forall b t, List.filter P l = b :: t ->
  exists l1 l2, l = l1 ++ b :: l2 /\ Forall (fun x => P x = false) l1.
Proof.
  induction l as [|x l IH]; intros b t H; simpl in H; [discriminate|].
  destruct (P x) eqn:E.
  - injection H as <- _. exists [], l. split; [reflexivity|constructor].
  - destruct (IH _ _ H) as (l1 & l2 & -> & Hall).
    exists (x :: l1), l2. split; [reflexivity|]. constructor; assumption.
Qed.

Lemma filter_split {A : Type} (P : A -> bool) (m : list A) :
  forall a x b, List.filter P m = a ++ x :: b ->
  exists m1 m2, m = m1 ++ x :: m2 /\ List.filter P m1 = a /\ List.filter P m2 = b.
Proof.
  induction m as [|y m IH]; intros a x b H; simpl in H.
  - destruct a; discriminate.
  - destruct (P y) eqn:E.
    + destruct a as [|a0 a]; simpl in H.
      * injection H as -> Hb. exists [], m. auto.
      * injection H as -> Hm.
        destruct (IH _ _ _ Hm) as (m1 & m2 & -> & H1 & H2).
        exists (a0 :: m1), m2. simpl. rewrite E, H1. auto.
    + destruct (IH _ _ _ H) as (m1 & m2 & -> & H1 & H2).
      exists (y :: m1), m2. simpl. rewrite E. auto.
Qed.

(** ** Ranking *)

Lemma sort_insert_entries (x : ComparisonReport) (l : list ComparisonReport) :
  sort_insert by_score (score_entry x) (map score_entry l) =
  map score_entry (sort_insert (by_key score_of) x l).
Proof.
  induction l as [|y l IH]; [reflexivity|].
  simpl. unfold by_score at 1, by_key at 1. simpl.
  destruct (Qle_bool (score_of x - score_of y) 0); [reflexivity|].
  simpl. f_equal. exact IH.
Qed.

Lemma sorted_scores_entries (reports : list ComparisonReport) :
  sorted_scores reports = map score_entry (Array_sort (by_key score_of) reports).
Proof.
  unfold sorted_scores.
  induction reports as [|x l IH]; [reflexivity|].
  simpl. rewrite IH. apply sort_insert_entries.
Qed.

Lemma rank_sort (reports : list ComparisonReport) :
  rank reports = Array_sort (by_key score_of) reports.
Proof.
  unfold rank. rewrite sorted_scores_entries, map_map. simpl. apply map_id.
Qed.

Lemma rank_perm (reports : list ComparisonReport) :
  Permutation (rank reports) reports.
Proof. rewrite rank_sort. apply Array_sort_perm. Qed.

Lemma findBestOpportunity_head (reports : list ComparisonReport) :
  findBestOpportunity reports = Return (hd_error (rank reports)).
Proof.
  unfold findBestOpportunity, rank.
  destruct reports as [|r rest]; [reflexivity|].
  simpl Nat.eqb.
  destruct (sorted_scores (r :: rest)) as [|first others] eqn:E; [|reflexivity].
  exfalso. pose proof (rank_perm (r :: rest)) as Hp.
  unfold rank in Hp. rewrite E in Hp. simpl in Hp.
  apply Permutation_nil in Hp. discriminate.
Qed.

(** ** Summary statistics *)

Lemma reduce_sum {A : Type} (f : A -> Q) (xs : list A) :
  forall a : Q,
    reduce (fun total x => total + f x) a xs == a + sum (map f xs).
Proof.
  unfold reduce.
  induction xs as [|x xs IH]; intros a; simpl.
  - ring.
  - rewrite IH. ring.
Qed.

Lemma round_nearest (q : Q) : nearest_integer (Qfloor (q + (1 # 2))) q.
Proof.
  unfold nearest_integer.
  pose proof (Qfloor_le (q + (1 # 2))) as Hlo.
  pose proof (Qlt_floor (q + (1 # 2))) as Hhi.
  rewrite inject_Z_plus in Hhi.
  change (inject_Z 1) with 1 in Hhi.
  split; lra.
Qed.

(** * The scorer and the summary in binary64 arithmetic *)

(** ** Mantissas, exponents and rounding *)

Section Binary64Format.
Import SpecFloat Binary64.
Local Open Scope Z_scope.

Lemma digits2_pos_bounds (m : positive) :
  2 ^ (Zpos (digits2_pos m) - 1) <= Zpos m < 2 ^ Zpos (digits2_pos m).
Proof.
  induction m as [m IH|m IH|]; cbn [digits2_pos].
  - rewrite Pos2Z.inj_succ.
    replace (Z.succ (Zpos (digits2_pos m)) - 1) with (Z.succ (Zpos (digits2_pos m) - 1)) by lia.
    rewrite !Z.pow_succ_r by lia. lia.
  - rewrite Pos2Z.inj_succ.
    replace (Z.succ (Zpos (digits2_pos m)) - 1) with (Z.succ (Zpos (digits2_pos m) - 1)) by lia.
    rewrite !Z.pow_succ_r by lia. lia.
  - change (2 ^ (1 - 1)) with 1. change (2 ^ 1) with 2. lia.
Qed.

Lemma digits2_pos_unique (m : positive) (d : Z) :
  2 ^ (d - 1) <= Zpos m < 2 ^ d -> 1 <= d -> Zpos (digits2_pos m) = d.
Proof.
  intros [Hl Hu] Hd.
  pose proof (digits2_pos_bounds m) as [Hl' Hu'].
  destruct (Z.lt_trichotomy (Zpos (digits2_pos m)) d) as [Hlt|[Heq|Hgt]]; [|exact Heq|].
  - exfalso.
    assert (2 ^ Zpos (digits2_pos m) <= 2 ^ (d - 1)) by (apply Z.pow_le_mono_r; lia).
    lia.
  - exfalso.
    assert (2 ^ d <= 2 ^ (Zpos (digits2_pos m) - 1)) by (apply Z.pow_le_mono_r; lia).
    lia.
Qed.

Lemma iter_xO (d m : positive) : Zpos (Pos.iter xO m d) = Zpos m * 2 ^ Zpos d.
Proof.
  induction d as [|d IH] using Pos.peano_ind.
  - change (2 ^ 1) with 2. cbn [Pos.iter]. lia.
  - rewrite Pos.iter_succ, Pos2Z.inj_xO, IH, Pos2Z.inj_succ, Z.pow_succ_r by lia. lia.
Qed.

Lemma shl_align_value (m : positive) (e e' : Z) :
  e' <= e -> Zpos (fst (shl_align m e e')) = Zpos m * 2 ^ (e - e').
Proof.
  intros Hle. unfold shl_align.
  destruct (e' - e) as [|p|p] eqn:E; cbn [fst].
  - replace (e - e') with 0 by lia. rewrite Z.pow_0_r. lia.
  - lia.
  - rewrite iter_xO. f_equal. f_equal. lia.
Qed.

Lemma shl_align_exponent (m : positive) (e e' : Z) :
  snd (shl_align m e e') = Z.min e e'.
Proof.
  unfold shl_align. destruct (e' - e) as [|p|p] eqn:E; cbn [snd]; lia.
Qed.

Lemma bounded_canonical (m : positive) (e : Z) :
  bounded 53 1024 m e = true -> canonical m e.
Proof.
  unfold bounded, canonical_mantissa, fexp, emin, canonical.
  rewrite andb_true_iff, Z.eqb_eq, Z.leb_le. lia.
Qed.

Lemma canonical_below (m : positive) (e : Z) : canonical m e -> Zpos m < 2 ^ 53.
Proof.
  intros (_ & Hd & _).
  pose proof (digits2_pos_bounds m) as [_ Hu].
  eapply Z.lt_le_trans; [exact Hu|]. apply Z.pow_le_mono_r; lia.
Qed.

(** Two mantissas brought to the smaller exponent compare as the numbers
    do. *)
Lemma aligned_compare (mx my : positive) (ex ey : Z) :
  canonical mx ex -> canonical my ey ->
  Z.compare (Zpos (fst (shl_align mx ex (Z.min ex ey))))
            (Zpos (fst (shl_align my ey (Z.min ex ey)))) =
  match Z.compare ex ey with
  | Lt => Lt
  | Gt => Gt
  | Eq => Pos.compare mx my
  end.
Proof.
  intros Hcx Hcy.
  pose proof (canonical_below _ _ Hcx) as Hx53.
  pose proof (canonical_below _ _ Hcy) as Hy53.
  destruct Hcx as (Hex & Hdx & Hnx), Hcy as (Hey & Hdy & Hny).
  rewrite !shl_align_value by lia.
  pose proof (digits2_pos_bounds mx) as [Hxl Hxu].
  pose proof (digits2_pos_bounds my) as [Hyl Hyu].
  change (2 ^ 53) with 9007199254740992 in Hx53, Hy53.
  destruct (Z.compare_spec ex ey) as [Heq|Hlt|Hgt].
  - subst ey. rewrite Z.min_id, Z.sub_diag, Z.pow_0_r, !Z.mul_1_r.
    reflexivity.
  - apply Z.compare_lt_iff.
    replace (ex - Z.min ex ey) with 0 by lia.
    replace (ey - Z.min ex ey) with (Z.succ (ey - ex - 1)) by lia.
    rewrite Z.pow_succ_r, Z.pow_0_r by lia.
    assert (0 < 2 ^ (ey - ex - 1)) by (apply Z.pow_pos_nonneg; lia).
    rewrite Hny in Hyl by lia. change (2 ^ (53 - 1)) with 4503599627370496 in Hyl.
    nia.
  - apply Z.compare_gt_iff.
    replace (ey - Z.min ex ey) with 0 by lia.
    replace (ex - Z.min ex ey) with (Z.succ (ex - ey - 1)) by lia.
    rewrite Z.pow_succ_r, Z.pow_0_r by lia.
    assert (0 < 2 ^ (ex - ey - 1)) by (apply Z.pow_pos_nonneg; lia).
    rewrite Hnx in Hxl by lia. change (2 ^ (53 - 1)) with 4503599627370496 in Hxl.
    nia.
Qed.

(** Rounding a positive mantissa never yields zero or [NaN], and keeps the
    sign. *)
Lemma shr_1_m (r : shr_record) : 0 <= shr_m r -> shr_m (shr_1 r) = shr_m r / 2.
Proof.
  destruct r as [m r s]. cbn [shr_m]. intros Hm.
  destruct m as [|[p|p|]|p]; cbn [shr_1 shr_m]; try lia; try reflexivity.
  - apply Z.div_unique with 1; lia.
  - apply Z.div_unique with 0; lia.
Qed.

Lemma iter_pos_shr_m (q : positive) :
  forall r : shr_record,
    0 <= shr_m r -> shr_m (iter_pos shr_1 q r) = shr_m r / 2 ^ Zpos q.
Proof.
  induction q as [q IH|q IH|]; intros r Hr; cbn [iter_pos].
  - assert (H1 : 0 <= shr_m (shr_1 r)).
    { rewrite shr_1_m by exact Hr. apply Z.div_pos; lia. }
    assert (H2 : 0 <= shr_m (iter_pos shr_1 q (shr_1 r))).
    { rewrite IH by exact H1. apply Z.div_pos; [exact H1|]. apply Z.pow_pos_nonneg; lia. }
    rewrite IH by exact H2. rewrite IH by exact H1. rewrite shr_1_m by exact Hr.
    assert (Hp : 0 < 2 ^ Zpos q) by (apply Z.pow_pos_nonneg; lia).
    rewrite !Z.div_div by lia.
    f_equal.
    replace (Zpos q~1) with (Z.succ (Zpos q + Zpos q)) by lia.
    rewrite Z.pow_succ_r, Z.pow_add_r by lia. lia.
  - assert (H2 : 0 <= shr_m (iter_pos shr_1 q r)).
    { rewrite IH by exact Hr. apply Z.div_pos; [exact Hr|]. apply Z.pow_pos_nonneg; lia. }
    rewrite IH by exact H2. rewrite IH by exact Hr.
    assert (Hp : 0 < 2 ^ Zpos q) by (apply Z.pow_pos_nonneg; lia).
    rewrite !Z.div_div by lia.
    f_equal.
    replace (Zpos q~0) with (Zpos q + Zpos q) by lia.
    rewrite Z.pow_add_r by lia. lia.
  - rewrite shr_1_m by exact Hr. reflexivity.
Qed.

Lemma shr_record_of_loc_m (m : Z) (l : location) : shr_m (shr_record_of_loc m l) = m.
Proof. destruct l as [|[]]; reflexivity. Qed.

Lemma shr_fexp_positive (m : positive) (e : Z) (l : location) :
  -1074 <= e ->
  0 < shr_m (fst (shr_fexp 53 1024 (Zpos m) e l)) /\
  -1074 <= snd (shr_fexp 53 1024 (Zpos m) e l).
Proof.
  intros He. unfold shr_fexp, shr, fexp, emin. cbn [Zdigits2].
  pose proof (digits2_pos_bounds m) as [Hl Hu].
  destruct (Z.max (Zpos (digits2_pos m) + e - 53) (3 - 1024 - 53) - e) as [|q|q] eqn:E;
    cbn [fst snd]; rewrite ?shr_record_of_loc_m; try lia.
  rewrite iter_pos_shr_m by (rewrite shr_record_of_loc_m; lia).
  rewrite shr_record_of_loc_m. split; [|lia].
  apply Z.div_str_pos. split; [apply Z.pow_pos_nonneg; lia|].
  eapply Z.le_trans; [|exact Hl]. apply Z.pow_le_mono_r; lia.
Qed.

Lemma round_nearest_even_positive (m : Z) (l : location) :
  0 < m -> 0 < round_nearest_even m l.
Proof.
  intros Hm. unfold round_nearest_even.
  destruct l as [|[]]; try lia. destruct (Z.even m); lia.
Qed.

Lemma binary_round_aux_sign (s : bool) (m : positive) (e : Z) (l : location) :
  -1074 <= e ->
  (exists m' e', binary_round_aux 53 1024 s (Zpos m) e l = S754_finite s m' e') \/
  binary_round_aux 53 1024 s (Zpos m) e l = S754_infinity s.
Proof.
  intros He. unfold binary_round_aux.
  pose proof (shr_fexp_positive m e l He) as [Hm1 He1].
  destruct (shr_fexp 53 1024 (Zpos m) e l) as [mrs' e'] eqn:E1. cbn [fst snd] in Hm1, He1.
  pose proof (round_nearest_even_positive (shr_m mrs') (loc_of_shr_record mrs') Hm1) as Hr.
  destruct (round_nearest_even (shr_m mrs') (loc_of_shr_record mrs')) as [|r|r] eqn:Er;
    try lia.
  pose proof (shr_fexp_positive r e' loc_Exact He1) as [Hm2 He2].
  destruct (shr_fexp 53 1024 (Zpos r) e' loc_Exact) as [mrs'' e''] eqn:E2.
  cbn [fst snd] in Hm2, He2.
  destruct (shr_m mrs'') as [|m2|m2]; try lia.
  destruct (e'' <=? 1024 - 53); [left; eauto|right; reflexivity].
Qed.

Lemma binary_round_sign (s : bool) (m : positive) (e : Z) :
  -1074 <= e ->
  (exists m' e', binary_round 53 1024 s m e = S754_finite s m' e') \/
  binary_round 53 1024 s m e = S754_infinity s.
Proof.
  intros He. unfold binary_round.
  pose proof (shl_align_exponent m e (fexp 53 1024 (Zpos (digits2_pos m) + e))) as Hs.
  destruct (shl_align m e (fexp 53 1024 (Zpos (digits2_pos m) + e))) as [mz ez].
  cbn [snd] in Hs. apply binary_round_aux_sign.
  unfold fexp, emin in Hs. lia.
Qed.

Lemma binary_normalize_positive (z e : Z) :
  -1074 <= e ->
  SFltb (S754_zero false) (binary_normalize 53 1024 z e false) = (0 <? z).
Proof.
  intros He. destruct z as [|p|p]; cbn [binary_normalize].
  - reflexivity.
  - destruct (binary_round_sign false p e He) as [(m' & e' & ->)| ->]; reflexivity.
  - destruct (binary_round_sign true p e He) as [(m' & e' & ->)| ->]; reflexivity.
Qed.

(** [0 < x - y] exactly when [y < x], for numbers other than [NaN]: the
    difference of two distinct numbers is never rounded to zero. *)
Lemma SFsub_positive (x y : spec_float) :
  valid_binary 53 1024 x = true -> valid_binary 53 1024 y = true ->
  x <> S754_nan -> y <> S754_nan ->
  SFltb (S754_zero false) (SFsub 53 1024 x y) = SFltb y x.
Proof.
  intros Vx Vy Nx Ny.
  destruct x as [sx|sx| |sx mx ex], y as [sy|sy| |sy my ey]; try congruence;
    try (destruct sx, sy; reflexivity); try (destruct sx; reflexivity);
    try (destruct sy; reflexivity).
  cbn [valid_binary] in Vx, Vy.
  apply bounded_canonical in Vx, Vy.
  cbn [SFsub].
  rewrite binary_normalize_positive by (destruct Vx as [? _], Vy as [? _]; lia).
  pose proof (aligned_compare my mx ey ex Vy Vx) as Hc.
  rewrite (Z.min_comm ey ex) in Hc.
  unfold SFltb, SFcompare.
  change (Pos.compare_cont Eq my mx) with (Pos.compare my mx).
  set (X := Zpos (fst (shl_align mx ex (Z.min ex ey)))) in *.
  set (Y := Zpos (fst (shl_align my ey (Z.min ex ey)))) in *.
  assert (HX : 0 < X) by (unfold X; lia).
  assert (HY : 0 < Y) by (unfold Y; lia).
  destruct sx, sy; cbn [cond_Zopp].
  - destruct (Z.compare ey ex) eqn:Ee;
      destruct (Z.compare_spec Y X) as [H|H|H]; try discriminate;
      try (rewrite <- Hc; cbn [CompOpp]); try (apply Z.ltb_lt; lia);
      try (apply Z.ltb_ge; lia).
  - apply Z.ltb_ge. lia.
  - apply Z.ltb_lt. lia.
  - destruct (Z.compare ey ex) eqn:Ee;
      destruct (Z.compare_spec Y X) as [H|H|H]; try discriminate;
      try (rewrite <- Hc); try (apply Z.ltb_lt; lia);
      try (apply Z.ltb_ge; lia).
Qed.

(** An integer below 2^53 is converted exactly, from any mantissa and
    exponent that denote it. *)
Lemma shr_fexp_canonical (m : positive) (e : Z) :
  Zpos (digits2_pos m) = 53 -> -1074 <= e <= 971 ->
  shr_fexp 53 1024 (Zpos m) e loc_Exact =
  ({| shr_m := Zpos m; shr_r := false; shr_s := false |}, e).
Proof.
  intros Hd He. unfold shr_fexp, shr, fexp, emin. cbn [Zdigits2]. rewrite Hd.
  replace (Z.max (53 + e - 53) (3 - 1024 - 53) - e) with 0 by lia.
  reflexivity.
Qed.

Lemma binary_round_aux_canonical (s : bool) (m : positive) (e : Z) :
  Zpos (digits2_pos m) = 53 -> -1074 <= e <= 971 ->
  binary_round_aux 53 1024 s (Zpos m) e loc_Exact = S754_finite s m e.
Proof.
  intros Hd He.
  pose proof (shr_fexp_canonical m e Hd He) as Hs.
  unfold binary_round_aux. rewrite Hs.
  cbn [shr_m loc_of_shr_record round_nearest_even]. rewrite Hs. cbn [shr_m].
  replace (e <=? 1024 - 53) with true by (symmetry; apply Z.leb_le; lia).
  reflexivity.
Qed.

Lemma digits2_pos_scaled (p m : positive) (k : Z) :
  0 <= k -> Zpos m = Zpos p * 2 ^ k ->
  Zpos (digits2_pos m) = Zpos (digits2_pos p) + k.
Proof.
  intros Hk Hm.
  pose proof (digits2_pos_bounds p) as [Hl Hu].
  apply digits2_pos_unique; [|lia]. rewrite Hm.
  assert (Hpos : 0 < 2 ^ k) by (apply Z.pow_pos_nonneg; lia).
  replace (Zpos (digits2_pos p) + k - 1) with (Zpos (digits2_pos p) - 1 + k) by lia.
  rewrite !Z.pow_add_r by lia. split; nia.
Qed.

Lemma digits2_pos_below (p : positive) : Zpos p < 2 ^ 53 -> Zpos (digits2_pos p) <= 53.
Proof.
  intros Hp. pose proof (digits2_pos_bounds p) as [Hl _].
  destruct (Z.le_gt_cases (Zpos (digits2_pos p)) 53) as [H|H]; [exact H|].
  exfalso.
  assert (2 ^ 53 <= 2 ^ (Zpos (digits2_pos p) - 1)) by (apply Z.pow_le_mono_r; lia).
  lia.
Qed.

Lemma shl_align_above (m : positive) (e e' : Z) : e <= e' -> shl_align m e e' = (m, e).
Proof.
  intros H. unfold shl_align. destruct (e' - e) as [|q|q] eqn:E; try reflexivity. lia.
Qed.

Lemma shr_1_even (k : Z) :
  0 <= k ->
  shr_1 {| shr_m := 2 * k; shr_r := false; shr_s := false |} =
  {| shr_m := k; shr_r := false; shr_s := false |}.
Proof.
  intros Hk. destruct k as [|p|p]; [reflexivity| |lia].
  change (2 * Zpos p) with (Zpos p~0). reflexivity.
Qed.

Lemma iter_pos_shr_exact (q : positive) :
  forall k : Z,
    0 <= k ->
    iter_pos shr_1 q {| shr_m := k * 2 ^ Zpos q; shr_r := false; shr_s := false |} =
    {| shr_m := k; shr_r := false; shr_s := false |}.
Proof.
  induction q as [q IH|q IH|]; intros k Hk; cbn [iter_pos].
  - assert (Hp : 0 < 2 ^ Zpos q) by (apply Z.pow_pos_nonneg; lia).
    replace (k * 2 ^ Zpos q~1) with (2 * (k * 2 ^ Zpos q * 2 ^ Zpos q)).
    + rewrite shr_1_even by nia. rewrite IH by nia. apply IH, Hk.
    + replace (Zpos q~1) with (Z.succ (Zpos q + Zpos q)) by lia.
      rewrite Z.pow_succ_r, Z.pow_add_r by lia. lia.
  - assert (Hp : 0 < 2 ^ Zpos q) by (apply Z.pow_pos_nonneg; lia).
    replace (k * 2 ^ Zpos q~0) with (k * 2 ^ Zpos q * 2 ^ Zpos q).
    + rewrite IH by nia. apply IH, Hk.
    + replace (Zpos q~0) with (Zpos q + Zpos q) by lia.
      rewrite Z.pow_add_r by lia. lia.
  - change (2 ^ 1) with 2. rewrite Z.mul_comm. apply shr_1_even, Hk.
Qed.

(** Whatever the mantissa [m] and the exponent [e <= 0] with
    [m * 2^e = p < 2^53], rounding yields [p] with a mantissa of 53
    digits. *)
Lemma binary_round_integer (s : bool) (p m : positive) (e : Z) :
  Zpos p < 2 ^ 53 -> e <= 0 -> Zpos m = Zpos p * 2 ^ (- e) ->
  exists mc : positive,
    binary_round 53 1024 s m e = S754_finite s mc (Zpos (digits2_pos p) - 53) /\
    Zpos mc = Zpos p * 2 ^ (53 - Zpos (digits2_pos p)).
Proof.
  intros Hp He Hm.
  pose proof (digits2_pos_below p Hp) as Hd.
  pose proof (digits2_pos_scaled p m (- e) ltac:(lia) Hm) as HD.
  set (d := Zpos (digits2_pos p)) in *.
  assert (Hd1 : 1 <= d) by (unfold d; lia).
  assert (Hc : exists mc : positive, Zpos mc = Zpos p * 2 ^ (53 - d)).
  { assert (0 < Zpos p * 2 ^ (53 - d)).
    { apply Z.mul_pos_pos; [lia|]. apply Z.pow_pos_nonneg; lia. }
    destruct (Zpos p * 2 ^ (53 - d)) as [|mc|mc] eqn:E; try lia. exists mc. reflexivity. }
  destruct Hc as (mc & Hmc).
  assert (Hdc : Zpos (digits2_pos mc) = 53).
  { rewrite (digits2_pos_scaled p mc (53 - d)); [fold d; lia|lia|exact Hmc]. }
  exists mc. split; [|exact Hmc].
  unfold binary_round. rewrite HD.
  assert (Hf : fexp 53 1024 (d + - e + e) = d - 53) by (unfold fexp, emin; lia).
  rewrite Hf.
  destruct (Z.le_gt_cases (d - 53) e) as [Hle|Hgt].
  - pose proof (shl_align_value m e (d - 53) Hle) as Hv.
    pose proof (shl_align_exponent m e (d - 53)) as Hx.
    destruct (shl_align m e (d - 53)) as [mz ez]. cbn [fst snd] in Hv, Hx.
    rewrite Z.min_r in Hx by lia. subst ez.
    assert (Hz : mz = mc).
    { apply Pos2Z.inj. rewrite Hv, Hm, Hmc, <- Z.mul_assoc, <- Z.pow_add_r by lia.
      f_equal. f_equal. lia. }
    subst mz. apply binary_round_aux_canonical; [exact Hdc|lia].
  - rewrite shl_align_above by lia.
    unfold binary_round_aux.
    assert (Hs : shr_fexp 53 1024 (Zpos m) e loc_Exact =
                 ({| shr_m := Zpos mc; shr_r := false; shr_s := false |}, d - 53)).
    { unfold shr_fexp, shr. cbn [Zdigits2]. rewrite HD, Hf.
      destruct (d - 53 - e) as [|q|q] eqn:E; try lia.
      cbn [shr_record_of_loc]. f_equal; [|lia].
      replace (Zpos m) with (Zpos mc * 2 ^ Zpos q).
      - apply iter_pos_shr_exact. lia.
      - rewrite Hm, Hmc, <- Z.mul_assoc, <- Z.pow_add_r by lia.
        f_equal. f_equal. lia. }
    rewrite Hs. cbn [shr_m loc_of_shr_record round_nearest_even].
    rewrite (shr_fexp_canonical mc (d - 53) Hdc) by lia. cbn [shr_m].
    replace (d - 53 <=? 1024 - 53) with true by (symmetry; apply Z.leb_le; lia).
    reflexivity.
Qed.

Lemma binary_round_exact (s : bool) (p : positive) :
  Zpos p < 2 ^ 53 ->
  exists (m : positive) (e : Z),
    binary_round 53 1024 s p 0 = S754_finite s m e /\
    -52 <= e <= 0 /\ Zpos m = Zpos p * 2 ^ (- e).
Proof.
  intros Hp.
  destruct (binary_round_integer s p p 0 Hp ltac:(lia)) as (mc & Hr & Hmc).
  { change (- 0) with 0. rewrite Z.pow_0_r. lia. }
  pose proof (digits2_pos_below p Hp) as Hd.
  exists mc, (Zpos (digits2_pos p) - 53).
  split; [exact Hr|]. split; [lia|].
  rewrite Hmc. f_equal. f_equal. lia.
Qed.

(** The sum of two positive integers, below 2^53, is exact. *)
Lemma SFadd_integers (a b mx my : positive) (ex ey : Z) :
  Zpos a + Zpos b < 2 ^ 53 ->
  ex <= 0 -> Zpos mx = Zpos a * 2 ^ (- ex) ->
  ey <= 0 -> Zpos my = Zpos b * 2 ^ (- ey) ->
  SFadd 53 1024 (S754_finite false mx ex) (S754_finite false my ey) =
  binary_round 53 1024 false (a + b) 0.
Proof.
  intros Hab Hex Hmx Hey Hmy.
  cbn [SFadd cond_Zopp].
  rewrite !shl_align_value by lia.
  set (ez := Z.min ex ey).
  assert (Hsum : Zpos mx * 2 ^ (ex - ez) + Zpos my * 2 ^ (ey - ez) =
                 Zpos (a + b) * 2 ^ (- ez)).
  { rewrite Hmx, Hmy, Pos2Z.inj_add, <- !Z.mul_assoc, <- !Z.pow_add_r by lia.
    replace (- ex + (ex - ez)) with (- ez) by lia.
    replace (- ey + (ey - ez)) with (- ez) by lia. lia. }
  rewrite Hsum.
  assert (Hpos : 0 < Zpos (a + b) * 2 ^ (- ez)).
  { apply Z.mul_pos_pos; [lia|]. apply Z.pow_pos_nonneg; lia. }
  destruct (Zpos (a + b) * 2 ^ (- ez)) as [|M|M] eqn:EM; try lia.
  cbn [binary_normalize].
  assert (Hab' : Zpos (a + b) < 2 ^ 53) by (rewrite Pos2Z.inj_add; exact Hab).
  destruct (binary_round_integer false (a + b) M ez Hab' ltac:(lia) ltac:(lia))
    as (mc & -> & Hmc).
  destruct (binary_round_integer false (a + b) (a + b) 0 Hab' ltac:(lia))
    as (mc' & -> & Hmc').
  { change (- 0) with 0. rewrite Z.pow_0_r. lia. }
  f_equal. apply Pos2Z.inj. congruence.
Qed.

(** Rounding never yields [NaN], and a product of two mantissas with a
    non-positive exponent does not overflow. *)
Lemma shr_fexp_nonneg (m e : Z) (l : location) :
  0 <= m ->
  0 <= shr_m (fst (shr_fexp 53 1024 m e l)) <= m /\
  snd (shr_fexp 53 1024 m e l) = Z.max e (fexp 53 1024 (Zdigits2 m + e)).
Proof.
  intros Hm. unfold shr_fexp, shr.
  set (f := fexp 53 1024 (Zdigits2 m + e)).
  destruct (f - e) as [|q|q] eqn:E; cbn [fst snd]; rewrite ?shr_record_of_loc_m; try lia.
  rewrite iter_pos_shr_m by (rewrite shr_record_of_loc_m; lia).
  rewrite shr_record_of_loc_m.
  assert (Hp : 0 < 2 ^ Zpos q) by (apply Z.pow_pos_nonneg; lia).
  split; [|lia]. split; [apply Z.div_pos; lia|].
  apply Z.div_le_upper_bound; [exact Hp|]. nia.
Qed.

Lemma round_nearest_even_bounds (m : Z) (l : location) :
  0 <= m -> 0 <= round_nearest_even m l <= m + 1.
Proof.
  intros Hm. unfold round_nearest_even.
  destruct l as [|[]]; try lia. destruct (Z.even m); lia.
Qed.

Lemma Zdigits2_le (m k : Z) : 0 <= m < 2 ^ k -> 0 <= k -> Zdigits2 m <= k.
Proof.
  intros [Hl Hu] Hk. destruct m as [|p|p]; cbn [Zdigits2]; try lia.
  pose proof (digits2_pos_bounds p) as [Hpl _].
  destruct (Z.le_gt_cases (Zpos (digits2_pos p)) k) as [H|H]; [exact H|].
  exfalso.
  assert (2 ^ k <= 2 ^ (Zpos (digits2_pos p) - 1)) by (apply Z.pow_le_mono_r; lia).
  lia.
Qed.

Lemma binary_round_aux_number (s : bool) (m e : Z) (l : location) :
  0 <= m -> is_number (binary_round_aux 53 1024 s m e l) = true.
Proof.
  intros Hm. unfold binary_round_aux.
  pose proof (shr_fexp_nonneg m e l Hm) as [[Hm1 _] _].
  destruct (shr_fexp 53 1024 m e l) as [mrs' e']. cbn [fst] in Hm1.
  pose proof (round_nearest_even_bounds (shr_m mrs') (loc_of_shr_record mrs') Hm1)
    as [Hr _].
  pose proof (shr_fexp_nonneg _ e' loc_Exact Hr) as [[Hm2 _] _].
  destruct (shr_fexp 53 1024
              (round_nearest_even (shr_m mrs') (loc_of_shr_record mrs')) e' loc_Exact)
    as [mrs'' e'']. cbn [fst] in Hm2.
  destruct (shr_m mrs'') as [|m2|m2]; try lia; [reflexivity|].
  destruct (e'' <=? 1024 - 53); reflexivity.
Qed.

Lemma binary_round_aux_finite (s : bool) (m e : Z) (l : location) :
  0 <= m < 2 ^ 106 -> e <= 0 ->
  finite_or_zero (binary_round_aux 53 1024 s m e l) = true.
Proof.
  intros [Hm Hu] He. unfold binary_round_aux.
  pose proof (shr_fexp_nonneg m e l Hm) as [[Hm1 Hu1] He1].
  destruct (shr_fexp 53 1024 m e l) as [mrs' e']. cbn [fst snd] in Hm1, Hu1, He1.
  pose proof (round_nearest_even_bounds (shr_m mrs') (loc_of_shr_record mrs') Hm1)
    as [Hr Hru].
  set (r := round_nearest_even (shr_m mrs') (loc_of_shr_record mrs')) in *.
  pose proof (shr_fexp_nonneg r e' loc_Exact Hr) as [[Hm2 _] He2].
  destruct (shr_fexp 53 1024 r e' loc_Exact) as [mrs'' e'']. cbn [fst snd] in Hm2, He2.
  destruct (shr_m mrs'') as [|m2|m2]; try lia; [reflexivity|].
  assert (Hd : Zdigits2 m <= 106) by (apply Zdigits2_le; lia).
  assert (Hdr : Zdigits2 r <= 107).
  { apply Zdigits2_le; [|lia]. split; [exact Hr|].
    change (2 ^ 106) with 81129638414606681695789005144064 in Hu.
    change (2 ^ 107) with 162259276829213363391578010288128. lia. }
  unfold fexp, emin in He1, He2.
  replace (e'' <=? 1024 - 53) with true by (symmetry; apply Z.leb_le; lia).
  reflexivity.
Qed.

Lemma binary_normalize_number (z e : Z) :
  is_number (binary_normalize 53 1024 z e false) = true.
Proof.
  destruct z as [|p|p]; cbn [binary_normalize]; [reflexivity| |];
    unfold binary_round;
    destruct (shl_align p e (fexp 53 1024 (Zpos (digits2_pos p) + e))) as [mz ez];
    apply binary_round_aux_number; lia.
Qed.

(** Adding a finite number, or multiplying by a finite number other than
    zero, yields [NaN] only from [NaN]. *)
Lemma SFadd_number (x y : spec_float) :
  finite_or_zero y = true ->
  is_number (SFadd 53 1024 x y) = is_number x.
Proof.
  intros Hy.
  destruct x as [sx|sx| |sx mx ex], y as [sy|sy| |sy my ey]; try discriminate;
    try reflexivity; try (destruct sx, sy; reflexivity).
  cbn [SFadd is_number]. apply binary_normalize_number.
Qed.

Lemma SFadd_zero_number (y : spec_float) :
  is_number (SFadd 53 1024 (S754_zero false) y) = is_number y.
Proof. destruct y as [sy|sy| |sy my ey]; try reflexivity. destruct sy; reflexivity. Qed.

Lemma SFmul_number (x : spec_float) (sy : bool) (my : positive) (ey : Z) :
  is_number (SFmul 53 1024 x (S754_finite sy my ey)) = is_number x.
Proof.
  destruct x as [sx|sx| |sx mx ex]; try reflexivity.
  cbn [SFmul is_number]. apply binary_round_aux_number. lia.
Qed.

Lemma SFmul_finite (mx my : positive) (ex ey : Z) :
  canonical mx ex -> canonical my ey -> ex + ey <= 0 ->
  finite_or_zero (SFmul 53 1024 (S754_finite false mx ex) (S754_finite false my ey)) = true.
Proof.
  intros Hx Hy He. cbn [SFmul].
  apply binary_round_aux_finite; [|exact He].
  apply canonical_below in Hx, Hy.
  change (2 ^ 53) with 9007199254740992 in Hx, Hy.
  change (2 ^ 106) with (9007199254740992 * 9007199254740992).
  rewrite Pos2Z.inj_mul. nia.
Qed.

(** Adding [+0] changes at most the sign of a zero. *)
Lemma binary_round_aux_nonnegative (m e : Z) (l : location) :
  0 <= m -> nonnegative (binary_round_aux 53 1024 false m e l) = true.
Proof.
  intros Hm. unfold binary_round_aux.
  pose proof (shr_fexp_nonneg m e l Hm) as [[Hm1 _] _].
  destruct (shr_fexp 53 1024 m e l) as [mrs' e']. cbn [fst] in Hm1.
  pose proof (round_nearest_even_bounds (shr_m mrs') (loc_of_shr_record mrs') Hm1)
    as [Hr _].
  pose proof (shr_fexp_nonneg _ e' loc_Exact Hr) as [[Hm2 _] _].
  destruct (shr_fexp 53 1024
              (round_nearest_even (shr_m mrs') (loc_of_shr_record mrs')) e' loc_Exact)
    as [mrs'' e'']. cbn [fst] in Hm2.
  destruct (shr_m mrs'') as [|m2|m2]; try lia; [reflexivity|].
  destruct (e'' <=? 1024 - 53); reflexivity.
Qed.

Lemma binary_normalize_nonnegative (z : Z) :
  0 <= z -> nonnegative (binary_normalize 53 1024 z 0 false) = true.
Proof.
  intros Hz. destruct z as [|p|p]; cbn [binary_normalize]; [reflexivity| |lia].
  unfold binary_round.
  destruct (shl_align p 0 (fexp 53 1024 (Zpos (digits2_pos p) + 0))) as [mz ez].
  apply binary_round_aux_nonnegative. lia.
Qed.

Lemma SFmul_nonnegative (x : spec_float) (my : positive) (ey : Z) :
  nonnegative x = true ->
  nonnegative (SFmul 53 1024 x (S754_finite false my ey)) = true.
Proof.
  destruct x as [[]|[]| |[] mx ex]; try discriminate; try reflexivity.
  intros _. cbn [SFmul xorb]. apply binary_round_aux_nonnegative. lia.
Qed.

Lemma SFadd_zero_first (a b : spec_float) :
  nonnegative b = true ->
  SFadd 53 1024 (SFadd 53 1024 (S754_zero false) a) b = SFadd 53 1024 a b.
Proof.
  destruct a as [[]|sa| |sa ma ea]; try reflexivity.
  destruct b as [[]|[]| |[] mb eb]; try discriminate; reflexivity.
Qed.

Lemma SFadd_zero_between (c : spec_float) (s : bool) (m : positive) (e : Z) :
  SFadd 53 1024 (SFadd 53 1024 c (S754_zero false)) (S754_finite s m e) =
  SFadd 53 1024 c (S754_finite s m e).
Proof. destruct c as [[]|sc| |sc mc ec]; reflexivity. Qed.

Lemma SFadd_zero_twice (c : spec_float) :
  SFadd 53 1024 (SFadd 53 1024 c (S754_zero false)) (S754_zero false) =
  SFadd 53 1024 c (S754_zero false).
Proof. destruct c as [[]|sc| |sc mc ec]; reflexivity. Qed.

Lemma SFadd_zero_last (c : spec_float) (s : bool) (m : positive) (e : Z) :
  valid_binary 53 1024 c = true -> bounded 53 1024 m e = true ->
  SFadd 53 1024 (SFadd 53 1024 c (S754_finite s m e)) (S754_zero false) =
  SFadd 53 1024 c (S754_finite s m e).
Proof.
  intros Vc Vy.
  destruct c as [sc|sc| |sc mc ec]; try reflexivity.
  cbn [valid_binary] in Vc. apply bounded_canonical in Vc, Vy.
  cbn [SFadd].
  set (z := cond_Zopp sc (Zpos (fst (shl_align mc ec (Z.min ec e)))) +
            cond_Zopp s (Zpos (fst (shl_align m e (Z.min ec e))))).
  assert (He : -1074 <= Z.min ec e) by (destruct Vc as [? _], Vy as [? _]; lia).
  destruct z as [|p|p]; cbn [binary_normalize]; [reflexivity| |].
  - destruct (binary_round_sign false p _ He) as [(m' & e' & ->)| ->]; reflexivity.
  - destruct (binary_round_sign true p _ He) as [(m' & e' & ->)| ->]; reflexivity.
Qed.

End Binary64Format.

(** ** The order of binary64 numbers *)

Section Binary64Order.
Import PrimFloat SpecFloat FloatOps FloatAxioms Binary64.

Lemma SFcompare_key (f g : spec_float) :
  f <> S754_nan -> g <> S754_nan ->
  SFcompare f g = Some (lex_compare (order_key f) (order_key g)).
Proof.
  intros Hf Hg.
  destruct f as [sf|sf| |sf mf ef], g as [sg|sg| |sg mg eg]; try congruence;
    try (destruct sf); try (destruct sg); try reflexivity.
  all: unfold SFcompare, lex_compare, order_key; cbn [fst snd].
  all: rewrite ?Z.compare_refl, ?Z.compare_opp, ?(Z.compare_antisym ef eg).
  all: destruct (Z.compare ef eg); reflexivity.
Qed.

Lemma lex_compare_Lt (a b : Z * (Z * Z)) : lex_compare a b = Lt <-> lex_lt a b.
Proof.
  unfold lex_compare, lex_lt.
  destruct (Z.compare_spec (fst a) (fst b)),
           (Z.compare_spec (fst (snd a)) (fst (snd b))),
           (Z.compare_spec (snd (snd a)) (snd (snd b)));
    split; intros Hx; try discriminate; try reflexivity; try lia.
Qed.

Lemma lex_compare_Eq (a b : Z * (Z * Z)) : lex_compare a b = Eq <-> a = b.
Proof.
  unfold lex_compare. destruct a as [a1 [a2 a3]], b as [b1 [b2 b3]]. cbn [fst snd].
  destruct (Z.compare_spec a1 b1), (Z.compare_spec a2 b2), (Z.compare_spec a3 b3);
    split; intros Hx; try discriminate; try reflexivity;
    try (injection Hx; intros; lia); subst; reflexivity.
Qed.

Lemma lex_compare_Gt (a b : Z * (Z * Z)) : lex_compare a b = Gt <-> lex_lt b a.
Proof.
  unfold lex_compare, lex_lt.
  destruct (Z.compare_spec (fst a) (fst b)),
           (Z.compare_spec (fst (snd a)) (fst (snd b))),
           (Z.compare_spec (snd (snd a)) (snd (snd b)));
    split; intros Hx; try discriminate; try reflexivity; try lia.
Qed.

Lemma number_is_nan_false (x : float) : is_nan x = false <-> Prim2SF x <> S754_nan.
Proof.
  unfold is_nan. rewrite eqb_spec. unfold SFeqb. split.
  - intros H E. rewrite E in H. discriminate.
  - intros H. rewrite (SFcompare_key _ _ H H).
    replace (lex_compare (order_key (Prim2SF x)) (order_key (Prim2SF x))) with Eq;
      [reflexivity|].
    symmetry. apply lex_compare_Eq. reflexivity.
Qed.

Lemma number_ltb_key (a b : float) :
  is_nan a = false -> is_nan b = false ->
  ltb a b = true <-> lex_lt (key a) (key b).
Proof.
  intros Ha Hb. apply number_is_nan_false in Ha, Hb.
  rewrite ltb_spec. unfold SFltb. rewrite (SFcompare_key _ _ Ha Hb).
  rewrite <- lex_compare_Lt. unfold key.
  destruct (lex_compare (order_key (Prim2SF a)) (order_key (Prim2SF b)));
    split; intros Hx; congruence.
Qed.

Lemma number_leb_key (a b : float) :
  is_nan a = false -> is_nan b = false ->
  leb a b = true <-> ~ lex_lt (key b) (key a).
Proof.
  intros Ha Hb. apply number_is_nan_false in Ha, Hb.
  rewrite leb_spec. unfold SFleb. rewrite (SFcompare_key _ _ Ha Hb).
  rewrite <- lex_compare_Gt. unfold key.
  destruct (lex_compare (order_key (Prim2SF a)) (order_key (Prim2SF b)));
    split; intros Hx; congruence.
Qed.

Lemma number_eqb_key (a b : float) :
  is_nan a = false -> is_nan b = false ->
  eqb a b = true <-> key a = key b.
Proof.
  intros Ha Hb. apply number_is_nan_false in Ha, Hb.
  rewrite eqb_spec. unfold SFeqb. rewrite (SFcompare_key _ _ Ha Hb).
  rewrite <- lex_compare_Eq. unfold key.
  destruct (lex_compare (order_key (Prim2SF a)) (order_key (Prim2SF b)));
    split; intros Hx; congruence.
Qed.

(** Numbers that are [===] are not [NaN]. *)
Lemma number_eqb_not_nan (a b : float) :
  eqb a b = true -> is_nan a = false /\ is_nan b = false.
Proof.
  rewrite eqb_spec, !number_is_nan_false. unfold SFeqb.
  destruct (Prim2SF a), (Prim2SF b); cbn [SFcompare]; intros H;
    try discriminate; split; discriminate.
Qed.

Lemma number_ltb_false_leb (a b : float) :
  is_nan a = false -> is_nan b = false -> ltb a b = false -> leb b a = true.
Proof.
  intros Ha Hb H. apply (number_leb_key b a Hb Ha).
  intros Hlt. apply (number_ltb_key a b Ha Hb) in Hlt. congruence.
Qed.

Lemma number_ltb_leb (a b : float) :
  is_nan a = false -> is_nan b = false -> ltb a b = true -> leb a b = true.
Proof.
  intros Ha Hb H. apply (number_ltb_key a b Ha Hb) in H. apply (number_leb_key a b Ha Hb).
  unfold lex_lt in *. lia.
Qed.

Lemma number_leb_refl (a : float) : is_nan a = false -> leb a a = true.
Proof. intros Ha. apply (number_leb_key a a Ha Ha). unfold lex_lt. lia. Qed.

Lemma number_leb_trans (a b c : float) :
  is_nan a = false -> is_nan b = false -> is_nan c = false ->
  leb a b = true -> leb b c = true -> leb a c = true.
Proof.
  intros Ha Hb Hc Hab Hbc.
  apply (number_leb_key a b Ha Hb) in Hab. apply (number_leb_key b c Hb Hc) in Hbc.
  apply (number_leb_key a c Ha Hc). unfold lex_lt in *. lia.
Qed.

Lemma number_eqb_sym (a b : float) : eqb a b = true -> eqb b a = true.
Proof.
  intros H. destruct (number_eqb_not_nan _ _ H) as [Ha Hb].
  apply (number_eqb_key a b Ha Hb) in H. apply (number_eqb_key b a Hb Ha). congruence.
Qed.

Lemma number_eqb_trans (a b c : float) :
  eqb a b = true -> eqb b c = true -> eqb a c = true.
Proof.
  intros H H'. destruct (number_eqb_not_nan _ _ H) as [Ha Hb].
  destruct (number_eqb_not_nan _ _ H') as [_ Hc].
  apply (number_eqb_key a b Ha Hb) in H. apply (number_eqb_key b c Hb Hc) in H'.
  apply (number_eqb_key a c Ha Hc). congruence.
Qed.

Lemma number_eqb_ltb_false (a b : float) : eqb a b = true -> ltb b a = false.
Proof.
  intros H. destruct (number_eqb_not_nan _ _ H) as [Ha Hb].
  apply (number_eqb_key a b Ha Hb) in H.
  apply not_true_iff_false. intros Hlt. apply (number_ltb_key b a Hb Ha) in Hlt.
  rewrite H in Hlt. unfold lex_lt in Hlt. lia.
Qed.

Lemma number_leb_antisym (a b : float) :
  is_nan a = false -> is_nan b = false ->
  leb a b = true -> leb b a = true -> eqb a b = true.
Proof.
  intros Ha Hb Hab Hba.
  apply (number_leb_key a b Ha Hb) in Hab. apply (number_leb_key b a Hb Ha) in Hba.
  apply (number_eqb_key a b Ha Hb).
  destruct (key a) as [a1 [a2 a3]], (key b) as [b1 [b2 b3]].
  unfold lex_lt in *. cbn [fst snd] in *.
  assert (a1 = b1 /\ a2 = b2 /\ a3 = b3) as (-> & -> & ->) by lia. reflexivity.
Qed.

Lemma number_leb_not_eqb_ltb (a b : float) :
  is_nan a = false -> is_nan b = false ->
  leb a b = true -> eqb a b = false -> ltb a b = true.
Proof.
  intros Ha Hb Hab Hne.
  destruct (ltb a b) eqn:Hlt; [reflexivity|].
  apply (number_ltb_false_leb a b Ha Hb) in Hlt.
  rewrite (number_leb_antisym a b Ha Hb Hab Hlt) in Hne. discriminate.
Qed.

(** The test of the sort on the comparator [(a, b) => a - b]. *)
Lemma number_sub_positive (a b : float) :
  is_nan a = false -> is_nan b = false ->
  ltb zero (sub a b) = ltb b a.
Proof.
  intros Ha Hb. apply number_is_nan_false in Ha, Hb.
  rewrite !ltb_spec, sub_spec.
  change (Prim2SF zero) with (S754_zero false).
  apply SFsub_positive; auto using Prim2SF_valid.
Qed.

End Binary64Order.

(** ** Sorting by a binary64 key *)

Section SortByKey64.
Import PrimFloat JS64 Spec64.
Context {A : Type} (key : A -> number).

Lemma sort_insert_perm64 (x : A) (l : list A) :
  Permutation (sort_insert (by_key key) x l) (x :: l).
Proof.
  induction l as [|y l IH]; cbn [sort_insert].
  - apply Permutation_refl.
  - destruct (ltb zero (by_key key x y)).
    + apply Permutation_trans with (y :: x :: l).
      * apply perm_skip, IH.
      * apply perm_swap.
    + apply Permutation_refl.
Qed.

Lemma Array_sort_perm64 (l : list A) : Permutation (Array_sort (by_key key) l) l.
Proof.
  induction l as [|x l IH]; cbn [Array_sort].
  - apply perm_nil.
  - apply Permutation_trans with (x :: Array_sort (by_key key) l).
    + apply sort_insert_perm64.
    + apply perm_skip, IH.
Qed.

Lemma sort_insert_ascending64 (x : A) (l : list A) :
  no_NaN key (x :: l) ->
  ascending_by key l -> ascending_by key (sort_insert (by_key key) x l).
Proof.
  unfold ascending_by, no_NaN.
  induction l as [|y l IH]; intros Hok Hs; cbn [sort_insert].
  - constructor; constructor.
  - apply List.Forall_cons_iff in Hok as [Hx Hok].
    pose proof Hok as Hyl.
    apply List.Forall_cons_iff in Hok as [Hy Hl].
    apply StronglySorted_inv in Hs as [Hsl Hall].
    unfold by_key at 1. rewrite (number_sub_positive _ _ Hx Hy).
    destruct (ltb (key y) (key x)) eqn:E.
    + constructor.
      * apply IH; [constructor; assumption|exact Hsl].
      * eapply Permutation_Forall.
        -- apply Permutation_sym, sort_insert_perm64.
        -- constructor; [apply number_ltb_leb; assumption|exact Hall].
    + apply (number_ltb_false_leb _ _ Hy Hx) in E. constructor.
      * constructor; assumption.
      * constructor; [exact E|].
        rewrite List.Forall_forall in *. intros z Hz.
        apply number_leb_trans with (key y); auto.
Qed.

Lemma Array_sort_ascending64 (l : list A) :
  no_NaN key l -> ascending_by key (Array_sort (by_key key) l).
Proof.
  unfold no_NaN.
  induction l as [|x l IH]; intros Hok; cbn [Array_sort].
  - constructor.
  - apply List.Forall_cons_iff in Hok as [Hx Hl].
    apply sort_insert_ascending64; [|apply IH, Hl].
    constructor; [exact Hx|].
    eapply Permutation_Forall; [apply Permutation_sym, Array_sort_perm64|exact Hl].
Qed.

(** Elements with the same key keep their order. *)
Lemma sort_insert_same_key64 (s : number) (x : A) (l : list A) :
  List.filter (fun e => eqb (key e) s) (sort_insert (by_key key) x l) =
  List.filter (fun e => eqb (key e) s) (x :: l).
Proof.
  induction l as [|y l IH]; [reflexivity|].
  cbn [sort_insert].
  destruct (ltb zero (by_key key x y)) eqn:E; [|reflexivity].
  change (List.filter (fun e => eqb (key e) s) (y :: sort_insert (by_key key) x l))
    with (if eqb (key y) s
          then y :: List.filter (fun e => eqb (key e) s) (sort_insert (by_key key) x l)
          else List.filter (fun e => eqb (key e) s) (sort_insert (by_key key) x l)).
  rewrite IH. cbn [List.filter].
  destruct (eqb (key x) s) eqn:Ex, (eqb (key y) s) eqn:Ey; try reflexivity.
  exfalso.
  destruct (number_eqb_not_nan _ _ Ex) as [Hx _]. destruct (number_eqb_not_nan _ _ Ey) as [Hy _].
  unfold by_key in E. rewrite (number_sub_positive _ _ Hx Hy) in E.
  pose proof (number_eqb_ltb_false _ _ (number_eqb_trans _ _ _ Ex (number_eqb_sym _ _ Ey))) as Hf.
  congruence.
Qed.

Lemma Array_sort_same_key64 (s : number) (l : list A) :
  List.filter (fun e => eqb (key e) s) (Array_sort (by_key key) l) =
  List.filter (fun e => eqb (key e) s) l.
Proof.
  induction l as [|x l IH]; [reflexivity|].
  cbn [Array_sort]. rewrite sort_insert_same_key64. cbn [List.filter].
  rewrite IH. reflexivity.
Qed.

End SortByKey64.

(** ** Ranking *)

Section Ranking64.
Import PrimFloat JS64 Comparison64 Spec64 Examples64.

Lemma sort_insert_entries64 (x : ComparisonReport) (l : list ComparisonReport) :
  sort_insert by_score (score_entry x) (map score_entry l) =
  map score_entry (sort_insert (by_key score_of) x l).
Proof.
  induction l as [|y l IH]; [reflexivity|].
  cbn [map sort_insert].
  change (by_score (score_entry x) (score_entry y)) with (by_key score_of x y).
  destruct (ltb zero (by_key score_of x y)); [|reflexivity].
  cbn [map]. f_equal. exact IH.
Qed.

Lemma rank_sort64 (reports : list ComparisonReport) :
  rank reports = Array_sort (by_key score_of) reports.
Proof.
  unfold rank, sorted_scores.
  induction reports as [|x l IH]; [reflexivity|].
  cbn [map Array_sort].
  assert (H : Array_sort by_score (map score_entry l) =
              map score_entry (Array_sort (by_key score_of) l)).
  { clear IH. induction l as [|y l IHl]; [reflexivity|].
    cbn [map Array_sort]. rewrite IHl. apply sort_insert_entries64. }
  rewrite H, sort_insert_entries64, map_map. apply map_id.
Qed.

Lemma rank_perm64 (reports : list ComparisonReport) :
  Permutation (rank reports) reports.
Proof. rewrite rank_sort64. apply Array_sort_perm64. Qed.

Lemma rank_ascending64 (reports : list ComparisonReport) :
  no_NaN score_of reports -> ascending_by score_of (rank reports).
Proof. intros H. rewrite rank_sort64. apply Array_sort_ascending64, H. Qed.

Lemma findBestOpportunity_head64 (reports : list ComparisonReport) :
  findBestOpportunity reports = Return (hd_error (rank reports)).
Proof.
  unfold findBestOpportunity, rank.
  destruct reports as [|r rest]; [reflexivity|].
  cbn [List.length Nat.eqb].
  destruct (sorted_scores (r :: rest)) as [|first others] eqn:E; [|reflexivity].
  exfalso. pose proof (rank_perm64 (r :: rest)) as Hp.
  unfold rank in Hp. rewrite E in Hp. cbn [map] in Hp.
  apply Permutation_nil in Hp. discriminate.
Qed.

Lemma rank_nonempty64 (r : ComparisonReport) (rest : list ComparisonReport) :
  exists b others, rank (r :: rest) = b :: others.
Proof.
  destruct (rank (r :: rest)) as [|b others] eqn:E; [|eauto].
  pose proof (rank_perm64 (r :: rest)) as Hp. rewrite E in Hp.
  apply Permutation_nil in Hp. discriminate.
Qed.

(** The head of the ranking has a minimal score. *)
Lemma rank_head_minimal64 (reports : list ComparisonReport)
    (b : ComparisonReport) (others : list ComparisonReport) :
  no_NaN score_of reports ->
  rank reports = b :: others ->
  In b reports /\
  Forall (fun x => leb (score_of b) (score_of x) = true) reports.
Proof.
  intros Hok Hrank.
  pose proof (rank_perm64 reports) as Hp. rewrite Hrank in Hp.
  assert (Hin : In b reports).
  { eapply Permutation_in; [exact Hp|left; reflexivity]. }
  split; [exact Hin|].
  eapply Permutation_Forall; [exact Hp|].
  pose proof (rank_ascending64 reports Hok) as Hs. rewrite Hrank in Hs.
  apply StronglySorted_inv in Hs as [_ Hall].
  constructor; [|exact Hall].
  apply number_leb_refl. unfold no_NaN in Hok. rewrite List.Forall_forall in Hok.
  apply Hok, Hin.
Qed.

Lemma rank_first_is_earliest_minimum64 (reports : list ComparisonReport)
    (b : ComparisonReport) (others : list ComparisonReport) :
  no_NaN score_of reports ->
  rank reports = b :: others ->
  exists l1 l2,
    reports = l1 ++ b :: l2 /\
    Forall (fun x => ltb (score_of b) (score_of x) = true) l1 /\
    Forall (fun x => leb (score_of b) (score_of x) = true) l2.
Proof.
  intros Hok Hrank.
  destruct (rank_head_minimal64 _ _ _ Hok Hrank) as [Hin Hmin].
  assert (Hb : is_nan (score_of b) = false).
  { unfold no_NaN in Hok. rewrite List.Forall_forall in Hok. apply Hok, Hin. }
  pose proof (Array_sort_same_key64 score_of (score_of b) reports) as Hst.
  rewrite <- rank_sort64, Hrank in Hst. cbn [List.filter] in Hst.
  rewrite (number_leb_antisym _ _ Hb Hb (number_leb_refl _ Hb) (number_leb_refl _ Hb)) in Hst.
  symmetry in Hst.
  apply filter_first_split in Hst as (l1 & l2 & -> & Hl1).
  exists l1, l2. split; [reflexivity|].
  unfold no_NaN in Hok.
  apply List.Forall_app in Hok as [Hok1 _].
  apply List.Forall_app in Hmin as [Hmin1 Hmin2].
  apply List.Forall_cons_iff in Hmin2 as [_ Hmin2].
  split; [|exact Hmin2].
  rewrite List.Forall_forall in *. intros x Hx.
  apply number_leb_not_eqb_ltb; auto.
  destruct (eqb (score_of b) (score_of x)) eqn:E; [|reflexivity].
  apply number_eqb_sym in E. rewrite (Hl1 x Hx) in E. discriminate.
Qed.

Lemma rank_keeps_order_of_ties64 (reports : list ComparisonReport)
    (r r' : ComparisonReport) :
  eqb (score_of r) (score_of r') = true ->
  before r r' reports -> before r r' (rank reports).
Proof.
  intros Heq (l1 & l2 & l3 & Hl).
  destruct (number_eqb_not_nan _ _ Heq) as [Hr _].
  pose proof (Array_sort_same_key64 score_of (score_of r) reports) as Hst.
  rewrite <- rank_sort64 in Hst.
  rewrite Hl in Hst at 2.
  rewrite List.filter_app in Hst. cbn [List.filter] in Hst.
  rewrite (number_leb_antisym _ _ Hr Hr (number_leb_refl _ Hr) (number_leb_refl _ Hr)) in Hst.
  rewrite List.filter_app in Hst. cbn [List.filter] in Hst.
  rewrite (number_eqb_sym _ _ Heq) in Hst.
  apply filter_split in Hst as (m1 & m2 & Hrank & _ & Hm2).
  apply filter_split in Hm2 as (n1 & n2 & -> & _ & _).
  exists m1, n1, n2. exact Hrank.
Qed.

(** C4: on reports none of whose computed scores is [NaN], [rank]
    reorders the reports ascending by computed score and is stable: for
    every score, the reports whose computed score is identical to it come
    in the ranked output in the order they have in the input, so of two
    reports with identical computed scores the one standing before the
    other in the input stands before it in the output; and the best
    opportunity is the earliest report of minimal score: every report
    before it in the input scores strictly more, every report after it
    scores at least as much. *)
Theorem C4_rank_stable :
  forall reports : list ComparisonReport,
    no_NaN score_of reports ->
    Permutation (rank reports) reports /\
    ascending_by score_of (rank reports) /\
    (forall s : number,
       List.filter (has_score s) (rank reports) = List.filter (has_score s) reports) /\
    (forall r r' : ComparisonReport,
       eqb (score_of r) (score_of r') = true ->
       before r r' reports -> before r r' (rank reports)) /\
    (forall r rest, reports = r :: rest ->
       exists b l1 l2,
         findBestOpportunity reports = Return (Some b) /\
         reports = l1 ++ b :: l2 /\
         Forall (fun x => ltb (score_of b) (score_of x) = true) l1 /\
         Forall (fun x => leb (score_of b) (score_of x) = true) l2).
Proof.
  intros reports Hok.
  split; [apply rank_perm64|].
  split; [apply rank_ascending64, Hok|].
  split; [intros s; rewrite rank_sort64; apply (Array_sort_same_key64 score_of)|].
  split; [apply rank_keeps_order_of_ties64|].
  intros r rest ->.
  destruct (rank_nonempty64 r rest) as (b & others & Hrank).
  destruct (rank_first_is_earliest_minimum64 _ _ _ Hok Hrank)
    as (l1 & l2 & Heq & H1 & H2).
  exists b, l1, l2. rewrite findBestOpportunity_head64, Hrank. auto.
Qed.

(** The scores of Quay (3.1 * 10 + 2 * 5) and of Mill (4.1 * 10) are both
    computed as 41: whichever comes first in the input is ranked first,
    and a report scoring 0 is ranked before both. *)
Lemma C4_rank_stable_witness :
  no_NaN score_of [report_quay; report_mill; report_A64] /\
  map score_of [report_quay; report_mill; report_A64] = [41; 41; 0]%float /\
  rank [report_quay; report_mill; report_A64] = [report_A64; report_quay; report_mill] /\
  rank [report_mill; report_quay; report_A64] = [report_A64; report_mill; report_quay] /\
  before report_quay report_mill (rank [report_quay; report_mill; report_A64]).
Proof.
  assert (Hok : no_NaN score_of [report_quay; report_mill; report_A64])
    by (repeat constructor).
  split; [exact Hok|].
  split; [reflexivity|]. split; [reflexivity|]. split; [reflexivity|].
  apply (proj1 (proj2 (proj2 (proj2
           (C4_rank_stable [report_quay; report_mill; report_A64] Hok))))).
  - reflexivity.
  - exists [], [], [report_A64]. reflexivity.
Defined.

(** C5: for the empty report set [findBestOpportunity] returns [null]: no
    report, and no error is thrown; for every non-empty set it returns the
    first element of the ranking, which holds the same reports as the
    input and, when no score is [NaN], is sorted by score, so that no
    report of the set scores less than the one returned. *)
Theorem C5_best_opportunity_or_null :
  findBestOpportunity [] = Return None /\
  rank [] = [] /\
  (forall (r : ComparisonReport) (rest : list ComparisonReport),
     exists b others,
       rank (r :: rest) = b :: others /\
       findBestOpportunity (r :: rest) = Return (Some b) /\
       Permutation (b :: others) (r :: rest) /\
       (no_NaN score_of (r :: rest) ->
        ascending_by score_of (b :: others) /\
        Forall (fun x => leb (score_of b) (score_of x) = true) (r :: rest))) /\
  findBestOpportunity [report_B64; report_A64] = Return (Some report_A64).
Proof.
  split; [reflexivity|]. split; [reflexivity|]. split; [|reflexivity].
  intros r rest.
  destruct (rank_nonempty64 r rest) as (b & others & Hrank).
  exists b, others. split; [exact Hrank|].
  split; [rewrite findBestOpportunity_head64, Hrank; reflexivity|].
  split; [rewrite <- Hrank; apply rank_perm64|].
  intros Hok. split.
  - rewrite <- Hrank. apply rank_ascending64, Hok.
  - apply (rank_head_minimal64 _ _ _ Hok Hrank).
Qed.

(** X4: the score of the best opportunity does not depend on the order of
    the reports: over two orderings of the same reports, none with the
    score [NaN], the best opportunities have identical computed scores
    (they are the same report unless several reports tie for it). *)
Theorem X4_best_score_order_independent :
  forall (reports reports' : list ComparisonReport) (best best' : ComparisonReport),
    Permutation reports reports' ->
    no_NaN score_of reports ->
    findBestOpportunity reports = Return (Some best) ->
    findBestOpportunity reports' = Return (Some best') ->
    eqb (score_of best) (score_of best') = true.
Proof.
  intros reports reports' best best' Hperm Hok H H'.
  assert (Hok' : no_NaN score_of reports').
  { unfold no_NaN in *. eapply Permutation_Forall; [exact Hperm|exact Hok]. }
  rewrite findBestOpportunity_head64 in H, H'.
  destruct (rank reports) as [|b others] eqn:Hrank; [discriminate|].
  destruct (rank reports') as [|b' others'] eqn:Hrank'; [discriminate|].
  cbn [hd_error] in H, H'. injection H as ->. injection H' as ->.
  destruct (rank_head_minimal64 _ _ _ Hok Hrank) as [Hin Hmin].
  destruct (rank_head_minimal64 _ _ _ Hok' Hrank') as [Hin' Hmin'].
  unfold no_NaN in Hok, Hok'.
  rewrite List.Forall_forall in Hok, Hok', Hmin, Hmin'.
  apply number_leb_antisym.
  - apply Hok, Hin.
  - apply Hok', Hin'.
  - apply Hmin. eapply Permutation_in; [apply Permutation_sym, Hperm|exact Hin'].
  - apply Hmin'. eapply Permutation_in; [exact Hperm|exact Hin].
Qed.

(** Quay and Mill tie at 41: each order returns its first report, and the
    two have the same score. *)
Lemma X4_best_score_order_independent_witness :
  Permutation [report_quay; report_mill] [report_mill; report_quay] /\
  no_NaN score_of [report_quay; report_mill] /\
  findBestOpportunity [report_quay; report_mill] = Return (Some report_quay) /\
  findBestOpportunity [report_mill; report_quay] = Return (Some report_mill) /\
  eqb (score_of report_quay) (score_of report_mill) = true.
Proof.
  split; [apply perm_swap|]. split; [repeat constructor|].
  split; [reflexivity|]. split; [reflexivity|].
  apply (X4_best_score_order_independent
           [report_quay; report_mill] [report_mill; report_quay]).
  - apply perm_swap.
  - repeat constructor.
  - reflexivity.
  - reflexivity.
Defined.

End Ranking64.

(** ** Summary statistics *)

Section Summary64.
Import PrimFloat SpecFloat FloatOps FloatAxioms.
Import JS64 Comparison64 Spec64 Examples64 Binary64.

Lemma reduce_sum64 {A : Type} (f : A -> number) (xs : list A) :
  reduce (fun total x => add total (f x)) zero xs = sum (map f xs).
Proof.
  unfold reduce, sum. generalize zero.
  induction xs as [|x xs IH]; intros a; cbn [fold_left map]; [reflexivity|apply IH].
Qed.

(** Integers below 2^53 are numbers. *)
Lemma of_uint63_exact (p : positive) :
  (Zpos p < 2 ^ 53)%Z ->
  exists (m : positive) (e : Z),
    Prim2SF (of_uint63 (Uint63.of_Z (Zpos p))) = S754_finite false m e /\
    (e <= 0)%Z /\ Zpos m = (Zpos p * 2 ^ (- e))%Z.
Proof.
  intros Hp. rewrite of_uint63_spec.
  rewrite <- Uint63.is_int.
  - cbn [binary_normalize].
    destruct (binary_round_exact false p Hp) as (m & e & Hr & He & Hm).
    exists m, e. split; [exact Hr|]. split; [lia|exact Hm].
  - change (2 ^ Uint63.to_Z Uint63.digits)%Z with 9223372036854775808%Z.
    change (2 ^ 53)%Z with 9007199254740992%Z in Hp. lia.
Qed.

Lemma scaled_back (p m : positive) (e : Z) :
  (e <= 0)%Z -> Zpos m = (Zpos p * 2 ^ (- e))%Z ->
  inject_Z (Zpos m) * 2 ^ e == inject_Z (Zpos p).
Proof.
  intros He ->.
  rewrite inject_Z_mult, Zpower_Qpower by lia.
  change (inject_Z 2) with 2.
  rewrite <- Qmult_assoc, <- Qpower_plus by discriminate.
  replace (- e + e)%Z with 0%Z by lia.
  change (2 ^ 0) with 1. ring.
Qed.

Lemma of_integer_value (z : Z) :
  (Z.abs z < 2 ^ 53)%Z ->
  isFinite (of_integer z) = true /\ value (of_integer z) == inject_Z z.
Proof.
  intros Hz. destruct z as [|p|p].
  - split; reflexivity.
  - destruct (of_uint63_exact p Hz) as (m & e & HP & He & Hm).
    unfold isFinite, value, of_integer. rewrite HP.
    split; [reflexivity|]. cbn [cond_Zopp]. apply scaled_back; assumption.
  - destruct (of_uint63_exact p Hz) as (m & e & HP & He & Hm).
    unfold isFinite, value, of_integer. rewrite opp_spec, HP. cbn [SFopp negb].
    split; [reflexivity|]. cbn [cond_Zopp].
    change (Z.opp (Zpos m)) with (Zneg m).
    change (Zneg m) with (- Zpos m)%Z. change (Zneg p) with (- Zpos p)%Z.
    rewrite !inject_Z_opp.
    rewrite <- (scaled_back p m e He Hm). ring.
Qed.

Lemma length_of_value {A : Type} (xs : list A) :
  (Z.of_nat (List.length xs) < 2 ^ 32)%Z ->
  isFinite (length_of xs) = true /\
  value (length_of xs) == inject_Z (Z.of_nat (List.length xs)).
Proof.
  intros H. apply of_integer_value.
  change (2 ^ 32)%Z with 4294967296%Z in H.
  change (2 ^ 53)%Z with 9007199254740992%Z. lia.
Qed.

(** Sums of integers are exact below 2^53. *)
Lemma of_integer_positive (p : positive) :
  (Zpos p < 2 ^ 53)%Z ->
  exists (m : positive) (e : Z),
    Prim2SF (of_integer (Zpos p)) = S754_finite false m e /\
    (e <= 0)%Z /\ Zpos m = (Zpos p * 2 ^ (- e))%Z.
Proof. apply of_uint63_exact. Qed.

Lemma add_of_integer (a b : Z) :
  (0 <= a)%Z -> (0 <= b)%Z -> (a + b < 2 ^ 53)%Z ->
  add (of_integer a) (of_integer b) = of_integer (a + b).
Proof.
  intros Ha Hb Hab. apply Prim2SF_inj. rewrite add_spec. unfold SF64add.
  destruct a as [|a|a]; [| |lia].
  - rewrite Z.add_0_l. change (Prim2SF (of_integer 0)) with (S754_zero false).
    destruct b as [|b|b]; [reflexivity| |lia].
    destruct (of_integer_positive b ltac:(lia)) as (m & e & -> & _). reflexivity.
  - destruct b as [|b|b]; [| |lia].
    + rewrite Z.add_0_r. change (Prim2SF (of_integer 0)) with (S754_zero false).
      destruct (of_integer_positive a ltac:(lia)) as (m & e & -> & _). reflexivity.
    + destruct (of_integer_positive a ltac:(lia)) as (ma & ea & -> & Hea & Hma).
      destruct (of_integer_positive b ltac:(lia)) as (mb & eb & -> & Heb & Hmb).
      change (SFadd prec emax) with (SFadd 53 1024).
      rewrite (SFadd_integers a b ma mb ea eb Hab Hea Hma Heb Hmb).
      change (Zpos a + Zpos b)%Z with (Zpos (a + b)).
      unfold of_integer. rewrite of_uint63_spec, <- Uint63.is_int; [reflexivity|].
      change (2 ^ Uint63.to_Z Uint63.digits)%Z with 9223372036854775808%Z.
      change (2 ^ 53)%Z with 9007199254740992%Z in Hab. lia.
Qed.

Lemma sum_of_integers (ns : list Z) :
  forall acc : Z,
    (0 <= acc)%Z -> Forall (fun n => (0 <= n)%Z) ns ->
    (acc + fold_right Z.add 0%Z ns < 2 ^ 53)%Z ->
    fold_left add (map of_integer ns) (of_integer acc) =
    of_integer (acc + fold_right Z.add 0%Z ns).
Proof.
  induction ns as [|n ns IH]; intros acc Hacc Hns Hsum; cbn [map fold_left fold_right] in *.
  - rewrite Z.add_0_r. reflexivity.
  - apply List.Forall_cons_iff in Hns as [Hn Hns].
    assert (Hrest : (0 <= fold_right Z.add 0%Z ns)%Z).
    { clear -Hns. induction Hns as [|x l Hx Hl IHl]; cbn [fold_right]; lia. }
    rewrite add_of_integer by lia.
    rewrite IH by (try assumption; lia).
    f_equal. lia.
Qed.

Lemma totalRedFlags_exact (reports : list ComparisonReport) :
  (total_flags reports < 2 ^ 53)%Z ->
  totalRedFlags (summary_of reports) = of_integer (total_flags reports).
Proof.
  intros H. unfold summary_of. cbn [totalRedFlags].
  rewrite reduce_sum64. unfold sum, length_of, total_flags in *.
  rewrite <- (map_map (fun r => Z.of_nat (List.length (red_flags (risk_assessment r))))
                      of_integer).
  change zero with (of_integer 0).
  rewrite sum_of_integers; [reflexivity|lia| |exact H].
  rewrite List.Forall_forall. intros n Hn.
  apply List.in_map_iff in Hn as (r & <- & _). lia.
Qed.

(** A number with a negative exponent is below 2^52 in magnitude. *)
Lemma value_below (x : number) (s : bool) (m : positive) (e : Z) :
  Prim2SF x = S754_finite s m e -> (e < 0)%Z ->
  - (4503599627370496 # 1) < value x /\ value x < 4503599627370496 # 1.
Proof.
  intros HP He.
  pose proof (Prim2SF_valid x) as Hv. rewrite HP in Hv. cbn [valid_binary] in Hv.
  apply bounded_canonical, canonical_below in Hv.
  rewrite Zlt_Qlt in Hv.
  change (inject_Z (2 ^ 53)) with (9007199254740992 # 1) in Hv.
  assert (Hm : 0 < inject_Z (Zpos m)) by reflexivity.
  assert (Ht : 0 < 2 ^ e) by (apply Qpower_0_lt; reflexivity).
  assert (Hh : 2 ^ e <= 1 # 2).
  { change (1 # 2) with (2 ^ (-1)). apply Qpower_le_compat_l; [lia|discriminate]. }
  unfold value. rewrite HP.
  destruct s; cbn [cond_Zopp].
  - change (Z.opp (Zpos m)) with (- Zpos m)%Z. rewrite inject_Z_opp.
    split; nra.
  - split; nra.
Qed.

(** [Math.round] yields a nearest integer of its argument. *)
Lemma Math_round_rounded (x : number) : rounded x (Math_round x).
Proof.
  unfold rounded. destruct (isFinite x) eqn:Hfin; cbv beta iota.
  - unfold isFinite in Hfin.
    destruct (Prim2SF x) as [s|s| |s m e] eqn:HP; try discriminate.
    + exists 0%Z.
      assert (Hr : Math_round x = x) by (unfold Math_round; rewrite HP; reflexivity).
      assert (Hv : value x = 0) by (unfold value; rewrite HP; reflexivity).
      rewrite Hr, Hv. unfold nearest_integer, isFinite. rewrite HP.
      split; [split; discriminate|]. split; reflexivity.
    + destruct (0 <=? e)%Z eqn:He.
      * apply Z.leb_le in He.
        exists (cond_Zopp s (Zpos m) * 2 ^ e)%Z.
        assert (Hr : Math_round x = x).
        { unfold Math_round. rewrite HP, (proj2 (Z.leb_le 0 e) He). reflexivity. }
        assert (Hv : value x == inject_Z (cond_Zopp s (Zpos m) * 2 ^ e)%Z).
        { unfold value. rewrite HP, inject_Z_mult, Zpower_Qpower by exact He.
          reflexivity. }
        rewrite Hr. unfold nearest_integer, isFinite. rewrite HP.
        split; [split; lra|]. split; [reflexivity|exact Hv].
      * apply Z.leb_gt in He.
        destruct (value_below x s m e HP He) as [Hlo Hhi].
        pose proof (round_nearest (value x)) as Hn.
        pose proof (Qfloor_le (value x + (1 # 2))) as Hfl.
        pose proof (Qlt_floor (value x + (1 # 2))) as Hfu.
        assert (Hr : Math_round x =
                     match Qfloor (value x + (1 # 2)) with
                     | Z0 => if s then neg_zero else zero
                     | z => of_integer z
                     end).
        { unfold Math_round. rewrite HP, (proj2 (Z.leb_gt 0 e) He). reflexivity. }
        set (n := Qfloor (value x + (1 # 2))) in *.
        assert (Hb : (Z.abs n < 2 ^ 53)%Z).
        { change (2 ^ 53)%Z with 9007199254740992%Z.
          assert (H1 : (n < 4503599627370497)%Z).
          { rewrite Zlt_Qlt. change (inject_Z 4503599627370497) with (4503599627370497 # 1).
            lra. }
          assert (H2 : (- 4503599627370497 < n + 1)%Z).
          { rewrite Zlt_Qlt.
            change (inject_Z (- 4503599627370497)) with (- (4503599627370497 # 1)).
            lra. }
          lia. }
        exists n. split; [exact Hn|].
        rewrite Hr.
        destruct n as [|p|p] eqn:En.
        -- destruct s; split; reflexivity.
        -- apply of_integer_value, Hb.
        -- apply of_integer_value, Hb.
  - unfold isFinite in Hfin. unfold Math_round.
    destruct (Prim2SF x) as [s|s| |s m e]; try discriminate; reflexivity.
Qed.

(** C6, as stated, fails: the durations of Quay and Mill are the numbers
    nearest to 0.3 and 0.7; their sum is computed as 1 and the mean as 0.5,
    which [Math.round] takes to 1, while the mean of the two durations is
    below 1/2 and 0 is its only nearest integer. *)
Lemma C6_exact_mean_counterexample :
  (exists s : Summary,
     summarize [report_quay; report_mill] = Return s /\
     avgDuration s = 1%float) /\
  Spec.mean (map (fun r => value (duration_months r)) [report_quay; report_mill])
    < 1 # 2 /\
  nearest_integer 0
    (Spec.mean (map (fun r => value (duration_months r)) [report_quay; report_mill])) /\
  ~ nearest_integer 1
    (Spec.mean (map (fun r => value (duration_months r)) [report_quay; report_mill])).
Proof.
  split; [eexists; split; reflexivity|].
  split; [reflexivity|].
  split; [split; discriminate|].
  intros [H _]. apply H. reflexivity.
Qed.

(** C6, amended: for every non-empty report set the summary holds the
    values computed in binary64 arithmetic: the average risk is the sum of
    the risk scores, accumulated in input order from 0, divided by the
    number of reports (which is at least 1); the average budget is that
    quotient for the midpoints [(budget_min + budget_max) / 2]; the average
    duration is that quotient for the durations, rounded to a nearest
    integer when it is finite; the total is the sum of the red-flag
    counts, which is exact when it is below 2^53. *)
Theorem C6_summary_statistics :
  forall reports : list ComparisonReport,
    reports <> [] ->
    (Z.of_nat (List.length reports) < 2 ^ 32)%Z ->
    exists s : Summary,
      summarize reports = Return s /\
      isFinite (length_of reports) = true /\
      value (length_of reports) == inject_Z (Z.of_nat (List.length reports)) /\
      1 <= value (length_of reports) /\
      avgRisk s = div (sum (map risk_score reports)) (length_of reports) /\
      avgBudget s = div (sum (map midpoint reports)) (length_of reports) /\
      rounded (div (sum (map duration_months reports)) (length_of reports))
              (avgDuration s) /\
      totalRedFlags s =
        sum (map (fun r => length_of (red_flags (risk_assessment r))) reports) /\
      ((total_flags reports < 2 ^ 53)%Z ->
       isFinite (totalRedFlags s) = true /\
       value (totalRedFlags s) == inject_Z (total_flags reports)).
Proof.
  intros reports Hne Hlen.
  exists (summary_of reports). split; [reflexivity|].
  destruct (length_of_value reports Hlen) as [Hfin Hval].
  split; [exact Hfin|]. split; [exact Hval|].
  split.
  { rewrite Hval. destruct reports as [|r rest]; [congruence|].
    change 1 with (inject_Z 1). rewrite <- Zle_Qle.
    cbn [List.length]. lia. }
  split; [unfold summary_of; cbn [avgRisk]; rewrite reduce_sum64; reflexivity|].
  split; [unfold summary_of; cbn [avgBudget]; rewrite reduce_sum64; reflexivity|].
  split.
  { unfold summary_of. cbn [avgDuration]. rewrite reduce_sum64.
    apply Math_round_rounded. }
  split; [unfold summary_of; cbn [totalRedFlags]; rewrite reduce_sum64; reflexivity|].
  intros Htotal. rewrite (totalRedFlags_exact reports Htotal).
  apply of_integer_value.
  assert (0 <= total_flags reports)%Z; [|lia].
  unfold total_flags. clear. induction reports as [|r rest IH]; cbn [map fold_right]; lia.
Qed.

(** The summary of Quay and Mill (durations 0.3 and 0.7: average duration
    1; two red flags), and the average duration of Pier, Yard and Shed
    (13.37, 9.68 and 2.45: the computed mean 8.499999999999998 is rounded
    to 8). *)
Lemma C6_summary_statistics_witness :
  [report_quay; report_mill] <> [] /\
  (Z.of_nat (List.length [report_quay; report_mill]) < 2 ^ 32)%Z /\
  (exists s : Summary,
     summarize [report_quay; report_mill] = Return s /\
     isFinite (length_of [report_quay; report_mill]) = true /\
     value (length_of [report_quay; report_mill]) ==
       inject_Z (Z.of_nat (List.length [report_quay; report_mill])) /\
     1 <= value (length_of [report_quay; report_mill]) /\
     avgRisk s =
       div (sum (map risk_score [report_quay; report_mill]))
           (length_of [report_quay; report_mill]) /\
     avgBudget s =
       div (sum (map midpoint [report_quay; report_mill]))
           (length_of [report_quay; report_mill]) /\
     rounded (div (sum (map duration_months [report_quay; report_mill]))
                  (length_of [report_quay; report_mill]))
             (avgDuration s) /\
     totalRedFlags s =
       sum (map (fun r => length_of (red_flags (risk_assessment r)))
                [report_quay; report_mill]) /\
     ((total_flags [report_quay; report_mill] < 2 ^ 53)%Z ->
      isFinite (totalRedFlags s) = true /\
      value (totalRedFlags s) == inject_Z (total_flags [report_quay; report_mill]))) /\
  avgDuration (summary_of [report_quay; report_mill]) = 1%float /\
  totalRedFlags (summary_of [report_quay; report_mill]) = 2%float /\
  avgDuration (summary_of [report_pier; report_yard; report_shed]) = 8%float.
Proof.
  split; [discriminate|].
  split; [reflexivity|].
  split; [|repeat split].
  apply (C6_summary_statistics [report_quay; report_mill]); [discriminate|reflexivity].
Defined.

End Summary64.

(** ** The score formula, and scores that are not numbers *)

Section Score64.
Import PrimFloat SpecFloat FloatOps FloatAxioms.
Import JS64 Comparison64 Spec64 Examples64 Binary64.

Lemma is_nan_number (x : float) : is_nan x = negb (is_number (Prim2SF x)).
Proof.
  destruct (is_nan x) eqn:E.
  - destruct (Prim2SF x) eqn:HP; try reflexivity; exfalso;
      assert (Hn : is_nan x = false)
        by (apply number_is_nan_false; rewrite HP; discriminate);
      congruence.
  - apply number_is_nan_false in E.
    destruct (Prim2SF x); try reflexivity. congruence.
Qed.

(** The flag term [length * 5] is finite. *)
Lemma length_of_times_5 {A : Type} (xs : list A) :
  (Z.of_nat (List.length xs) < 2 ^ 32)%Z ->
  finite_or_zero (Prim2SF (mul (length_of xs) 5)) = true.
Proof.
  intros H. rewrite mul_spec. unfold length_of, of_integer.
  change (2 ^ 32)%Z with 4294967296%Z in H.
  destruct (Z.of_nat (List.length xs)) as [|p|p] eqn:E; [reflexivity| |lia].
  assert (Hp : (Zpos p < 2 ^ 53)%Z).
  { change (2 ^ 53)%Z with 9007199254740992%Z. lia. }
  destruct (of_uint63_exact p Hp) as (m & e & HP & He & Hm).
  pose proof (Prim2SF_valid (of_uint63 (Uint63.of_Z (Zpos p)))) as Hv.
  rewrite HP in Hv |- *. cbn [valid_binary] in Hv. apply bounded_canonical in Hv.
  change (Prim2SF 5) with (S754_finite false 5629499534213120 (-50)).
  apply SFmul_finite; [exact Hv| |lia].
  apply bounded_canonical. reflexivity.
Qed.

(** The flag term is not negative. *)
Lemma length_of_nonnegative {A : Type} (xs : list A) :
  nonnegative (Prim2SF (length_of xs)) = true.
Proof.
  unfold length_of, of_integer.
  destruct (Z.of_nat (List.length xs)) as [|p|p] eqn:E; [reflexivity| |lia].
  rewrite of_uint63_spec. apply binary_normalize_nonnegative.
  pose proof (Uint63.to_Z_bounded (Uint63.of_Z (Zpos p))). lia.
Qed.

Lemma flag_term_nonnegative {A : Type} (xs : list A) :
  nonnegative (Prim2SF (mul (length_of xs) 5)) = true.
Proof.
  rewrite mul_spec.
  change (Prim2SF 5) with (S754_finite false 5629499534213120 (-50)).
  apply SFmul_nonnegative, length_of_nonnegative.
Qed.

(** X16: in binary64 arithmetic the computed score is
    [(risk_score * 10 + flags * 5) + penalty], each operation rounded: the
    initial 0 and the zero term of the recommendation change nothing.  The
    scores of Example 1 are 0 and 145; Quay and Mill both score 41. *)
Theorem X16_score_formula64 :
  (forall r : ComparisonReport,
     score_of r =
     add (add (mul (risk_score r) 10)
              (mul (length_of (red_flags (risk_assessment r))) 5))
         (penalty (participation_recommendation r))) /\
  penalty "NO" = 50%float /\ penalty "YES" = (-20)%float /\ penalty "MAYBE" = 0%float /\
  map score_of [report_A64; report_B64; report_quay; report_mill] =
    [0; 145; 41; 41]%float.
Proof.
  split; [|repeat split].
  intros r. apply Prim2SF_inj.
  unfold score_of, penalty. cbv zeta.
  set (a := mul (risk_score r) 10).
  set (b := mul (length_of (red_flags (risk_assessment r))) 5).
  assert (Hb : nonnegative (Prim2SF b) = true) by apply flag_term_nonnegative.
  assert (Hc : Prim2SF (add (add 0 a) b) = Prim2SF (add a b)).
  { rewrite !add_spec. apply SFadd_zero_first, Hb. }
  pose proof (Prim2SF_valid (add a b)) as Vc.
  destruct (participation_recommendation r =? "NO")%string eqn:En.
  - apply String.eqb_eq in En. rewrite En.
    change ("NO" =? "YES")%string with false. cbv iota.
    rewrite (add_spec _ 0), (add_spec _ 50), Hc, (add_spec (add a b) 50).
    change (Prim2SF 0) with (S754_zero false).
    change (Prim2SF 50) with (S754_finite false 7036874417766400 (-47)).
    apply SFadd_zero_last; [exact Vc|reflexivity].
  - destruct (participation_recommendation r =? "YES")%string eqn:Ey.
    + rewrite (add_spec _ (-20)), (add_spec _ 0), Hc, (add_spec (add a b) (-20)).
      change (Prim2SF 0) with (S754_zero false).
      change (Prim2SF (-20)) with (S754_finite true 5629499534213120 (-48)).
      apply SFadd_zero_between.
    + rewrite (add_spec _ 0), (add_spec _ 0), Hc, (add_spec (add a b) 0).
      change (Prim2SF 0) with (S754_zero false).
      apply SFadd_zero_twice.
Qed.

(** X15: the computed score of a report is [NaN] exactly when its risk
    score is [NaN]: neither the product by 10 nor the additions of the flag
    term and of the recommendation terms produce [NaN] from a number, be it
    infinite. *)
Theorem X15_score_NaN_only_from_risk :
  forall r : ComparisonReport,
    (Z.of_nat (List.length (red_flags (risk_assessment r))) < 2 ^ 32)%Z ->
    is_nan (score_of r) = is_nan (risk_score r).
Proof.
  intros r Hlen. rewrite !is_nan_number. f_equal.
  unfold score_of. cbv zeta. rewrite !add_spec. unfold SF64add.
  rewrite SFadd_number
    by (destruct (participation_recommendation r =? "YES")%string; reflexivity).
  rewrite SFadd_number
    by (destruct (participation_recommendation r =? "NO")%string; reflexivity).
  rewrite SFadd_number by (apply length_of_times_5, Hlen).
  change (Prim2SF 0) with (S754_zero false). rewrite SFadd_zero_number.
  rewrite mul_spec.
  change (Prim2SF 10) with (S754_finite false 5629499534213120 (-49)).
  apply SFmul_number.
Qed.

(** Quay has two red flags and the risk score 3.1. *)
Lemma X15_score_NaN_only_from_risk_witness :
  (Z.of_nat (List.length (red_flags (risk_assessment report_quay))) < 2 ^ 32)%Z /\
  is_nan (score_of report_quay) = is_nan (risk_score report_quay).
Proof.
  split; [reflexivity|].
  apply (X15_score_NaN_only_from_risk report_quay). reflexivity.
Defined.

End Score64.

(** * The page, continued *)

(** C7 as stated fails: with zero reports the summary is computed, not
    refused: the three averages are [NaN] (0 / 0), the total is 0, and no
    [EmptyInputError] is thrown. *)
Lemma C7_empty_summary_counterexample :
  summarize [] =
    Return {| avgRisk := NaN; avgBudget := NaN; avgDuration := NaN; totalRedFlags := 0 |} /\
  summarize [] <> Throw EmptyInputError.
Proof. split; [reflexivity|discriminate]. Qed.

(** C7, amended: the summary raises no error, for any report set; with
    zero reports it yields [NaN] for the average risk, the average budget
    and the average duration, and 0 for the total of red flags. *)
Theorem C7_empty_summary :
  (forall reports : list ComparisonReport,
     exists s : Summary, summarize reports = Return s) /\
  summarize [] =
    Return {| avgRisk := NaN; avgBudget := NaN; avgDuration := NaN; totalRedFlags := 0 |}.
Proof.
  split; [|reflexivity].
  intros reports. exists (summary_of reports). reflexivity.
Qed.

(** ** Loader *)

Import Loader.

Lemma loadComparison_rejects (Number : string -> number) (ids_param : option string)
    (post : list number -> option (list ComparisonReport)) :
  (List.length (parse_ids Number ids_param) < 2)%nat ->
  loadComparison Number ids_param post = Return [Navigate "/"; SetLoading false].
Proof.
  intros H. unfold loadComparison.
  apply Nat.ltb_lt in H. rewrite H. reflexivity.
Qed.

Lemma loadComparison_requests (Number : string -> number) (ids_param : option string)
    (post : list number -> option (list ComparisonReport)) :
  (2 <= List.length (parse_ids Number ids_param))%nat ->
  loadComparison Number ids_param post =
    Return [Post "/api/reports/compare" (parse_ids Number ids_param);
            match post (parse_ids Number ids_param) with
            | Some reports => SetReports reports
            | None => ConsoleError
            end;
            SetLoading false].
Proof.
  intros H. unfold loadComparison.
  apply Nat.ltb_ge in H. rewrite H.
  destruct (post (parse_ids Number ids_param)); reflexivity.
Qed.

(** C8 as stated fails: with one identifier ("7") the loader raises no
    [InsufficientSelectionError]; it completes normally, having navigated
    to "/" and issued no request. *)
Lemma C8_no_error_counterexample :
  loadComparison Number_decimal (Some "7"%string) (fun _ => None) =
    Return [Navigate "/"; SetLoading false] /\
  loadComparison Number_decimal (Some "7"%string) (fun _ => None) <>
    Throw InsufficientSelectionError.
Proof. split; [reflexivity|discriminate]. Qed.

(** C8, amended: the loader never raises an error.  Whenever fewer than 2
    identifiers are supplied it rejects the selection by navigating to "/"
    without issuing the comparison request; with exactly 2 identifiers, and
    with any larger number (there is no upper bound), it issues the request
    with all of them and does not navigate away. *)
Theorem C8_selection_guard :
  (forall (Number : string -> number) (ids_param : option string)
          (post : list number -> option (list ComparisonReport)),
     (exists effects, loadComparison Number ids_param post = Return effects) /\
     ((List.length (parse_ids Number ids_param) < 2)%nat ->
      loadComparison Number ids_param post = Return [Navigate "/"; SetLoading false]) /\
     ((2 <= List.length (parse_ids Number ids_param))%nat ->
      loadComparison Number ids_param post =
        Return [Post "/api/reports/compare" (parse_ids Number ids_param);
                match post (parse_ids Number ids_param) with
                | Some reports => SetReports reports
                | None => ConsoleError
                end;
                SetLoading false])) /\
  (forall (post : list number -> option (list ComparisonReport))
          (response : option (list ComparisonReport)),
     loadComparison Number_decimal None post = Return [Navigate "/"; SetLoading false] /\
     loadComparison Number_decimal (Some "7"%string) post =
       Return [Navigate "/"; SetLoading false] /\
     loadComparison Number_decimal (Some "7,9"%string) (fun _ => response) =
       Return [Post "/api/reports/compare" [Fin 7; Fin 9];
               match response with
               | Some reports => SetReports reports
               | None => ConsoleError
               end;
               SetLoading false] /\
     loadComparison Number_decimal (Some "1,2,3,4,5,6"%string) (fun _ => response) =
       Return [Post "/api/reports/compare" [Fin 1; Fin 2; Fin 3; Fin 4; Fin 5; Fin 6];
               match response with
               | Some reports => SetReports reports
               | None => ConsoleError
               end;
               SetLoading false]).
Proof.
  split.
  - intros Number ids_param post.
    split; [|split].
    + destruct (Nat.lt_ge_cases (List.length (parse_ids Number ids_param)) 2) as [H|H].
      * rewrite (loadComparison_rejects _ _ _ H). eauto.
      * rewrite (loadComparison_requests _ _ _ H). eauto.
    + apply loadComparison_rejects.
    + apply loadComparison_requests.
  - intros post response. repeat split; destruct response; reflexivity.
Qed.

(** ** Banner *)

(** C10: there is a set of two reports whose best opportunity does not have
    the least risk score: a report of risk 3 recommended "YES" (score 10)
    is ranked before a report of risk 2 recommended "NO" (score 70); the
    banner nevertheless presents it under "Lowest risk". *)
Theorem C10_best_is_not_lowest_risk :
  exists (reports : list ComparisonReport) (best safer : ComparisonReport),
    (2 <= List.length reports)%nat /\
    findBestOpportunity reports = Return (Some best) /\
    In safer reports /\
    risk_score safer < risk_score best /\
    banner reports =
      Return (Some
        "Best opportunity: Bridge - Lowest risk (3.0),0 red flags, recommendation: YES"%string).
Proof.
  exists [report_safe_declined; report_riskier_recommended],
         report_riskier_recommended, report_safe_declined.
  split; [simpl; lia|].
  split; [reflexivity|].
  split; [now left|].
  split; [reflexivity|].
  reflexivity.
Qed.

(** ** The store: what an operation leaves untouched *)

Section Frames.
Context (D : gset positive).

Lemma frames_ret {A : Type} (a : A) : Store.frames D (Store.ret a).
Proof. intros h a' h' HD [= <- <-]. auto. Qed.

Lemma frames_throw {A : Type} (e : string) : Store.frames D (@Store.throw A e).
Proof. intros h a h' HD H. discriminate. Qed.

Lemma frames_bind {A B : Type} (m : Store.M A) (k : A -> Store.M B) :
  Store.frames D m -> (forall a, Store.frames D (k a)) ->
  Store.frames D (Store.bind m k).
Proof.
  intros Hm Hk h b h' HD H. unfold Store.bind in H.
  destruct (m h) as [[a h1]|e] eqn:E; [|discriminate].
  destruct (Hm _ _ _ HD E) as [HD1 Hsame1].
  destruct (Hk a _ _ _ HD1 H) as [HD2 Hsame2].
  split; [exact HD2|].
  intros l Hl. rewrite Hsame2, Hsame1; auto.
Qed.

Lemma frames_load (l : positive) : Store.frames D (Store.load l).
Proof.
  intros h o h' HD H. unfold Store.load in H.
  destruct (h !! l); [|discriminate]. injection H as <- <-. auto.
Qed.

Lemma frames_alloc_bind {B : Type} (o : Store.object) (k : positive -> Store.M B) :
  (forall l, l ∉ D -> Store.frames D (k l)) ->
  Store.frames D (Store.bind (Store.alloc o) k).
Proof.
  intros Hk h b h' HD H. unfold Store.bind, Store.alloc in H.
  pose proof (is_fresh (dom h)) as Hfresh.
  assert (Hnew : fresh (dom h) ∉ D) by set_solver.
  assert (HD1 : D ⊆ dom (<[fresh (dom h) := o]> h)).
  { rewrite dom_insert_L. set_solver. }
  destruct (Hk _ Hnew _ _ _ HD1 H) as [HD2 Hsame].
  split; [exact HD2|].
  intros l Hl. rewrite (Hsame l Hl).
  apply lookup_insert_ne. intros Heq. rewrite <- Heq in Hl. contradiction.
Qed.

Lemma frames_alloc (o : Store.object) : Store.frames D (Store.alloc o).
Proof.
  intros h l h' HD H.
  apply (frames_alloc_bind o Store.ret (fun l _ => frames_ret l) h l h' HD).
  unfold Store.bind. rewrite H. reflexivity.
Qed.

Lemma frames_store (l : positive) (o : Store.object) :
  l ∉ D -> Store.frames D (Store.store l o).
Proof.
  intros Hl h u h' HD [= _ <-]. split.
  - rewrite dom_insert_L. set_solver.
  - intros l' Hl'. apply lookup_insert_ne. intros Heq. rewrite <- Heq in Hl'. contradiction.
Qed.

Lemma frames_mapM {A B : Type} (f : A -> Store.M B) (xs : list A) :
  (forall x, Store.frames D (f x)) -> Store.frames D (Store.mapM f xs).
Proof.
  intros Hf. induction xs as [|x xs IH]; simpl.
  - apply frames_ret.
  - apply frames_bind; [apply Hf|]. intros y.
    apply frames_bind; [exact IH|]. intros ys. apply frames_ret.
Qed.

Lemma frames_load_array (l : positive) : Store.frames D (Store.load_array l).
Proof.
  apply frames_bind; [apply frames_load|].
  intros [r|r sc|elems]; first [apply frames_ret|apply frames_throw].
Qed.

Lemma frames_load_report (v : Store.value) : Store.frames D (Store.load_report v).
Proof.
  destruct v as [n|l]; [apply frames_throw|].
  apply frames_bind; [apply frames_load|].
  intros [r|r sc|elems]; first [apply frames_ret|apply frames_throw].
Qed.

Lemma frames_load_scored (v : Store.value) : Store.frames D (Store.load_scored v).
Proof.
  destruct v as [n|l]; [apply frames_throw|].
  apply frames_bind; [apply frames_load|].
  intros [r|r sc|elems]; first [apply frames_ret|apply frames_throw].
Qed.

Lemma frames_Array_map_number (f : ComparisonReport -> number) (reports : positive) :
  Store.frames D (Store.Array_map_number f reports).
Proof.
  apply frames_bind; [apply frames_load_array|]. intros elems.
  apply frames_bind; [|intros nums; apply frames_alloc].
  apply frames_mapM. intros v.
  apply frames_bind; [apply frames_load_report|]. intros r. apply frames_ret.
Qed.

Lemma frames_spread (arr : positive) : Store.frames D (Store.spread arr).
Proof.
  apply frames_bind; [apply frames_load_array|]. intros elems. apply frames_ret.
Qed.

Lemma frames_min_of (f : ComparisonReport -> number) (reports : positive) :
  Store.frames D (Store.min_of f reports).
Proof.
  apply frames_bind; [apply frames_Array_map_number|]. intros arr.
  apply frames_bind; [apply frames_spread|]. intros xs. apply frames_ret.
Qed.

Lemma frames_max_of (f : ComparisonReport -> number) (reports : positive) :
  Store.frames D (Store.max_of f reports).
Proof.
  apply frames_bind; [apply frames_Array_map_number|]. intros arr.
  apply frames_bind; [apply frames_spread|]. intros xs. apply frames_ret.
Qed.

Lemma frames_getBestValue (key : MetricKey) (reports : positive) :
  Store.frames D (Store.getBestValue key reports).
Proof. destruct key; first [apply frames_min_of|apply frames_max_of]. Qed.

Lemma frames_getWorstValue (key : MetricKey) (reports : positive) :
  Store.frames D (Store.getWorstValue key reports).
Proof. destruct key; first [apply frames_min_of|apply frames_max_of]. Qed.

Lemma frames_getValueColor (value : number) (key : MetricKey) (reports : positive) :
  Store.frames D (Store.getValueColor value key reports).
Proof.
  apply frames_bind; [apply frames_getBestValue|]. intros best.
  apply frames_bind; [apply frames_getWorstValue|]. intros worst.
  apply frames_ret.
Qed.

Lemma frames_Array_sort_by_score (scores : positive) :
  scores ∉ D -> Store.frames D (Store.Array_sort_by_score scores).
Proof.
  intros Hnew.
  apply frames_bind; [apply frames_load_array|]. intros elems.
  apply frames_bind; [|intros keyed; apply frames_store, Hnew].
  apply frames_mapM. intros v.
  apply frames_bind; [apply frames_load_scored|]. intros sc. apply frames_ret.
Qed.

Lemma frames_score_callback (v : Store.value) :
  Store.frames D (Store.score_callback v).
Proof.
  apply frames_bind; [apply frames_load_report|]. intros r.
  apply frames_bind; [apply frames_alloc|]. intros e. apply frames_ret.
Qed.

Lemma frames_findBestOpportunity (reports : positive) :
  Store.frames D (Store.findBestOpportunity reports).
Proof.
  apply frames_bind; [apply frames_load_array|]. intros elems.
  destruct (List.length elems =? 0)%nat; [apply frames_ret|].
  apply frames_bind; [apply frames_mapM, frames_score_callback|].
  intros entries. apply frames_alloc_bind. intros scores Hnew.
  apply frames_bind; [apply frames_Array_sort_by_score, Hnew|]. intros _.
  apply frames_bind; [apply frames_load_array|]. intros sorted.
  destruct sorted as [|first others]; [apply frames_throw|].
  apply frames_bind; [apply frames_load_scored|]. intros sc. apply frames_ret.
Qed.

Lemma frames_summarize (reports : positive) :
  Store.frames D (Store.summarize reports).
Proof.
  apply frames_bind; [apply frames_load_array|]. intros elems.
  apply frames_bind; [|intros rs; apply frames_ret].
  apply frames_mapM. intros v. apply frames_load_report.
Qed.

End Frames.

Lemma frames_preserved {A : Type} (m : Store.M A) :
  (forall D, Store.frames D m) ->
  forall h a h', m h = Return (a, h') -> Store.preserved h h'.
Proof.
  intros Hm h a h' H l o Hl.
  destruct (Hm (dom h) h a h' (reflexivity _) H) as [_ Hsame].
  rewrite Hsame; [exact Hl|]. apply elem_of_dom. eauto.
Qed.

(** ** The store: what an operation returns *)

Lemma Array_sort_map {T U : Type} (g : T -> U) (cmpT : T -> T -> Q)
    (cmpU : U -> U -> Q) :
  (forall a b, cmpU (g a) (g b) = cmpT a b) ->
  forall l, Array_sort cmpU (map g l) = map g (Array_sort cmpT l).
Proof.
  intros Hcmp.
  assert (Hins : forall x l,
            sort_insert cmpU (g x) (map g l) = map g (sort_insert cmpT x l)).
  { intros x l. induction l as [|y l IH]; [reflexivity|].
    simpl. rewrite Hcmp. destruct (Qle_bool (cmpT x y) 0); [reflexivity|].
    simpl. f_equal. exact IH. }
  induction l as [|x l IH]; [reflexivity|].
  simpl. rewrite IH. apply Hins.
Qed.

Lemma holds_reports_preserved (h h' : gmap positive Store.object) (arr : positive)
    (stored : list (positive * ComparisonReport)) :
  Store.preserved h h' ->
  Store.holds_reports h arr stored -> Store.holds_reports h' arr stored.
Proof.
  intros Hp [Harr Hall]. split; [apply Hp, Harr|].
  eapply List.Forall_impl; [|exact Hall]. intros lr Hlr. apply Hp, Hlr.
Qed.

Lemma bind_eval {A B : Type} (m : Store.M A) (k : A -> Store.M B)
    (h h' : gmap positive Store.object) (a : A) :
  m h = Return (a, h') -> Store.bind m k h = k a h'.
Proof. intros H. unfold Store.bind. rewrite H. reflexivity. Qed.

Lemma eval_load_array (h : gmap positive Store.object) (arr : positive)
    (elems : list Store.value) :
  h !! arr = Some (Store.OArray elems) ->
  Store.load_array arr h = Return (elems, h).
Proof.
  intros H. unfold Store.load_array, Store.bind, Store.load. rewrite H. reflexivity.
Qed.

Lemma eval_load_report (h : gmap positive Store.object) (l : positive)
    (r : ComparisonReport) :
  h !! l = Some (Store.OReport r) ->
  Store.load_report (Store.VRef l) h = Return (r, h).
Proof.
  intros H. unfold Store.load_report, Store.bind, Store.load. rewrite H. reflexivity.
Qed.

Lemma eval_load_scored (h : gmap positive Store.object) (l : positive)
    (v : Store.value) (sc : Q) :
  h !! l = Some (Store.OScored v sc) ->
  Store.load_scored (Store.VRef l) h = Return ((v, sc), h).
Proof.
  intros H. unfold Store.load_scored, Store.bind, Store.load. rewrite H. reflexivity.
Qed.

Lemma eval_mapM_reports {B : Type} (g : ComparisonReport -> B)
    (h : gmap positive Store.object) (stored : list (positive * ComparisonReport)) :
  Forall (fun lr => h !! fst lr = Some (Store.OReport (snd lr))) stored ->
  Store.mapM (fun v => Store.bind (Store.load_report v) (fun r => Store.ret (g r)))
             (map (fun lr => Store.VRef (fst lr)) stored) h =
    Return (map (fun lr => g (snd lr)) stored, h).
Proof.
  induction 1 as [|[l r] rest Hl Hrest IH]; [reflexivity|].
  cbn [map Store.mapM fst snd] in *.
  erewrite bind_eval; [|erewrite bind_eval; [reflexivity|apply eval_load_report, Hl]].
  erewrite bind_eval; [|exact IH]. reflexivity.
Qed.

Lemma eval_mapM_load_report (h : gmap positive Store.object)
    (stored : list (positive * ComparisonReport)) :
  Forall (fun lr => h !! fst lr = Some (Store.OReport (snd lr))) stored ->
  Store.mapM Store.load_report (map (fun lr => Store.VRef (fst lr)) stored) h =
    Return (map snd stored, h).
Proof.
  induction 1 as [|[l r] rest Hl Hrest IH]; [reflexivity|].
  cbn [map Store.mapM fst snd] in *.
  erewrite bind_eval; [|apply eval_load_report, Hl].
  erewrite bind_eval; [|exact IH]. reflexivity.
Qed.

Lemma eval_spread_mapped (f : ComparisonReport -> number)
    (h : gmap positive Store.object) (arr : positive)
    (stored : list (positive * ComparisonReport)) :
  Store.holds_reports h arr stored ->
  exists h',
    Store.bind (Store.Array_map_number f arr) Store.spread h =
      Return (map f (map snd stored), h').
Proof.
  intros [Harr Hall].
  eexists.
  erewrite bind_eval.
  2:{ unfold Store.Array_map_number.
      erewrite bind_eval; [|apply eval_load_array, Harr].
      erewrite bind_eval; [|apply eval_mapM_reports, Hall].
      reflexivity. }
  unfold Store.spread.
  erewrite bind_eval; [|apply eval_load_array, lookup_insert_eq].
  unfold Store.ret. rewrite !map_map. reflexivity.
Qed.

Lemma eval_min_of (f : ComparisonReport -> number)
    (h : gmap positive Store.object) (arr : positive)
    (stored : list (positive * ComparisonReport)) :
  Store.holds_reports h arr stored ->
  exists h', Store.min_of f arr h = Return (Math_min (map f (map snd stored)), h').
Proof.
  intros Hh. destruct (eval_spread_mapped f h arr stored Hh) as [h' H].
  exists h'. unfold Store.min_of. unfold Store.bind in *.
  destruct (Store.Array_map_number f arr h) as [[a h1]|e]; [|discriminate].
  unfold Store.spread, Store.bind in *.
  destruct (Store.load_array a h1) as [[elems h2]|e]; [|discriminate].
  unfold Store.ret in *. injection H as <- <-. reflexivity.
Qed.

Lemma eval_max_of (f : ComparisonReport -> number)
    (h : gmap positive Store.object) (arr : positive)
    (stored : list (positive * ComparisonReport)) :
  Store.holds_reports h arr stored ->
  exists h', Store.max_of f arr h = Return (Math_max (map f (map snd stored)), h').
Proof.
  intros Hh. destruct (eval_spread_mapped f h arr stored Hh) as [h' H].
  exists h'. unfold Store.max_of. unfold Store.bind in *.
  destruct (Store.Array_map_number f arr h) as [[a h1]|e]; [|discriminate].
  unfold Store.spread, Store.bind in *.
  destruct (Store.load_array a h1) as [[elems h2]|e]; [|discriminate].
  unfold Store.ret in *. injection H as <- <-. reflexivity.
Qed.

Lemma eval_getBestValue (key : MetricKey) (h : gmap positive Store.object)
    (arr : positive) (stored : list (positive * ComparisonReport)) :
  Store.holds_reports h arr stored ->
  exists h',
    Store.getBestValue key arr h = Return (getBestValue key (map snd stored), h') /\
    Store.preserved h h'.
Proof.
  intros Hh.
  assert (H : exists h', Store.getBestValue key arr h =
                           Return (getBestValue key (map snd stored), h')).
  { destruct key; simpl; first [apply eval_min_of|apply eval_max_of]; exact Hh. }
  destruct H as [h' H]. exists h'. split; [exact H|].
  eapply frames_preserved; [|exact H]. intros D. apply frames_getBestValue.
Qed.

Lemma eval_getWorstValue (key : MetricKey) (h : gmap positive Store.object)
    (arr : positive) (stored : list (positive * ComparisonReport)) :
  Store.holds_reports h arr stored ->
  exists h',
    Store.getWorstValue key arr h = Return (getWorstValue key (map snd stored), h') /\
    Store.preserved h h'.
Proof.
  intros Hh.
  assert (H : exists h', Store.getWorstValue key arr h =
                           Return (getWorstValue key (map snd stored), h')).
  { destruct key; simpl; first [apply eval_min_of|apply eval_max_of]; exact Hh. }
  destruct H as [h' H]. exists h'. split; [exact H|].
  eapply frames_preserved; [|exact H]. intros D. apply frames_getWorstValue.
Qed.

Lemma eval_getValueColor (value : number) (key : MetricKey)
    (h : gmap positive Store.object) (arr : positive)
    (stored : list (positive * ComparisonReport)) :
  Store.holds_reports h arr stored ->
  exists h',
    Store.getValueColor value key arr h =
      Return (getValueColor value key (map snd stored), h') /\
    Store.preserved h h'.
Proof.
  intros Hh.
  destruct (eval_getBestValue key h arr stored Hh) as (h1 & Hb & Hp1).
  pose proof (holds_reports_preserved _ _ _ _ Hp1 Hh) as Hh1.
  destruct (eval_getWorstValue key h1 arr stored Hh1) as (h2 & Hw & Hp2).
  assert (H : Store.getValueColor value key arr h =
                Return (getValueColor value key (map snd stored), h2)).
  { unfold Store.getValueColor.
    erewrite bind_eval; [|exact Hb]. erewrite bind_eval; [|exact Hw]. reflexivity. }
  exists h2. split; [exact H|].
  eapply frames_preserved; [|exact H]. intros D. apply frames_getValueColor.
Qed.

Lemma eval_summarize (h : gmap positive Store.object) (arr : positive)
    (stored : list (positive * ComparisonReport)) :
  Store.holds_reports h arr stored ->
  Store.summarize arr h = Return (summary_of (map snd stored), h).
Proof.
  intros [Harr Hall]. unfold Store.summarize.
  erewrite bind_eval; [|apply eval_load_array, Harr].
  erewrite bind_eval; [|apply eval_mapM_load_report, Hall].
  reflexivity.
Qed.

Lemma preserved_alloc (h : gmap positive Store.object) (o : Store.object) :
  Store.preserved h (<[fresh (dom h) := o]> h).
Proof.
  intros l o' Hl. rewrite lookup_insert_ne; [exact Hl|].
  intros Heq. apply (is_fresh (dom h)). rewrite Heq. apply elem_of_dom. eauto.
Qed.

Lemma eval_score_callbacks (stored : list (positive * ComparisonReport)) :
  forall h : gmap positive Store.object,
    Forall (fun lr => h !! fst lr = Some (Store.OReport (snd lr))) stored ->
    exists (ts : list (positive * (positive * ComparisonReport)))
           (h1 : gmap positive Store.object),
      map snd ts = stored /\
      Store.mapM Store.score_callback (map (fun lr => Store.VRef (fst lr)) stored) h =
        Return (map (fun t => Store.VRef (fst t)) ts, h1) /\
      Forall (fun t => h1 !! fst t =
                         Some (Store.OScored (Store.VRef (fst (snd t)))
                                             (score_of (snd (snd t))))) ts.
Proof.
  induction stored as [|[l r] rest IH]; intros h Hall.
  - exists [], h. repeat split. constructor.
  - apply List.Forall_cons_iff in Hall as [Hl Hrest]. simpl in Hl.
    set (e := fresh (dom h)).
    set (h' := <[e := Store.OScored (Store.VRef l) (score_of r)]> h).
    assert (Hp : Store.preserved h h') by apply preserved_alloc.
    assert (Hrest' : Forall (fun lr => h' !! fst lr = Some (Store.OReport (snd lr))) rest).
    { eapply List.Forall_impl; [|exact Hrest]. intros lr Hlr. apply Hp, Hlr. }
    destruct (IH h' Hrest') as (ts & h1 & Hts & Hrun & Hobjs).
    exists ((e, (l, r)) :: ts), h1.
    split; [simpl; rewrite Hts; reflexivity|].
    split.
    + cbn [map Store.mapM fst snd].
      erewrite bind_eval.
      2:{ unfold Store.score_callback.
          erewrite bind_eval; [|apply eval_load_report, Hl]. reflexivity. }
      erewrite bind_eval; [|exact Hrun]. reflexivity.
    + constructor; [|exact Hobjs]. simpl.
      eapply frames_preserved; [|exact Hrun|apply lookup_insert_eq].
      intros D. apply frames_mapM, frames_score_callback.
Qed.

Lemma eval_read_scores (h : gmap positive Store.object)
    (ts : list (positive * (positive * ComparisonReport))) :
  Forall (fun t => h !! fst t =
                     Some (Store.OScored (Store.VRef (fst (snd t)))
                                         (score_of (snd (snd t))))) ts ->
  Store.mapM Store.read_score (map (fun t => Store.VRef (fst t)) ts) h =
    Return (map (fun t => (Store.VRef (fst t), score_of (snd (snd t)))) ts, h).
Proof.
  induction 1 as [|t rest Ht Hrest IH]; [reflexivity|].
  cbn [map Store.mapM].
  erewrite bind_eval.
  2:{ unfold Store.read_score.
      erewrite bind_eval; [|apply eval_load_scored, Ht]. reflexivity. }
  erewrite bind_eval; [|exact IH]. reflexivity.
Qed.

Lemma eval_findBestOpportunity (h : gmap positive Store.object) (arr : positive)
    (stored : list (positive * ComparisonReport)) :
  Store.holds_reports h arr stored ->
  exists (best : option Store.value) (h' : gmap positive Store.object),
    Store.findBestOpportunity arr h = Return (best, h') /\
    Store.preserved h h' /\
    match best with
    | None => findBestOpportunity (map snd stored) = Return None
    | Some v =>
        exists l b,
          v = Store.VRef l /\ In (l, b) stored /\
          findBestOpportunity (map snd stored) = Return (Some b)
    end.
Proof.
  intros [Harr Hall].
  assert (Hrun : exists best h',
            Store.findBestOpportunity arr h = Return (best, h') /\
            match best with
            | None => findBestOpportunity (map snd stored) = Return None
            | Some v =>
                exists l b,
                  v = Store.VRef l /\ In (l, b) stored /\
                  findBestOpportunity (map snd stored) = Return (Some b)
            end).
  { unfold Store.findBestOpportunity.
    erewrite bind_eval; [|apply eval_load_array, Harr].
    destruct stored as [|lr rest].
    { exists None, h. split; reflexivity. }
    cbn [map List.length Nat.eqb].
    destruct (eval_score_callbacks _ h Hall) as (ts & h1 & Hts & Hentries & Hobjs).
    cbn [map] in Hentries.
    erewrite bind_eval; [|exact Hentries].
    set (entries := map (fun t => Store.VRef (fst t)) ts).
    set (scores := fresh (dom h1)).
    set (h2 := <[scores := Store.OArray entries]> h1).
    assert (Hp2 : Store.preserved h1 h2) by apply preserved_alloc.
    assert (Hobjs2 : Forall (fun t => h2 !! fst t =
                       Some (Store.OScored (Store.VRef (fst (snd t)))
                                           (score_of (snd (snd t))))) ts).
    { eapply List.Forall_impl; [|exact Hobjs]. intros t Ht. apply Hp2, Ht. }
    erewrite (bind_eval (Store.alloc _)); [|reflexivity].
    fold scores. fold h2.
    erewrite bind_eval.
    2:{ unfold Store.Array_sort_by_score.
        erewrite bind_eval; [|apply eval_load_array, lookup_insert_eq].
        erewrite bind_eval; [|apply eval_read_scores, Hobjs2].
        reflexivity. }
    erewrite bind_eval; [|apply eval_load_array, lookup_insert_eq].
    rewrite (Array_sort_map
               (fun t : positive * (positive * ComparisonReport) =>
                  (Store.VRef (fst t), score_of (snd (snd t))))
               (by_key (fun t => score_of (snd (snd t)))))
      by reflexivity.
    rewrite map_map. cbn [fst].
    pose proof (Array_sort_perm (fun t : positive * (positive * ComparisonReport) =>
                                   score_of (snd (snd t))) ts) as Hperm.
    assert (Hpure : rank (map snd (lr :: rest)) =
                    map (fun t => snd (snd t))
                        (Array_sort (by_key (fun t : positive * (positive * ComparisonReport) =>
                                               score_of (snd (snd t)))) ts)).
    { rewrite rank_sort, <- Hts, map_map.
      apply (Array_sort_map (fun t : positive * (positive * ComparisonReport) =>
                               snd (snd t))).
      reflexivity. }
    destruct (Array_sort (by_key (fun t : positive * (positive * ComparisonReport) =>
                                    score_of (snd (snd t)))) ts)
      as [|t0 others] eqn:Esorted.
    { apply Permutation_nil in Hperm. subst ts. discriminate. }
    assert (Hin : In t0 ts).
    { eapply Permutation_in; [exact Hperm|]. now left. }
    cbn [map] in Hpure |- *.
    assert (Ht0 : h1 !! fst t0 =
                  Some (Store.OScored (Store.VRef (fst (snd t0)))
                                      (score_of (snd (snd t0))))).
    { rewrite List.Forall_forall in Hobjs. apply Hobjs, Hin. }
    erewrite bind_eval.
    2:{ apply eval_load_scored. rewrite lookup_insert_ne.
        - apply Hp2, Ht0.
        - intros Heq. apply (is_fresh (dom h1)). fold scores. rewrite Heq.
          apply elem_of_dom. eauto. }
    eexists _, _. split; [reflexivity|].
    exists (fst (snd t0)), (snd (snd t0)). cbn [fst].
    split; [reflexivity|]. split.
    - rewrite <- Hts. replace (fst (snd t0), snd (snd t0)) with (snd t0)
        by (destruct t0 as [e [l b]]; reflexivity).
      apply in_map, Hin.
    - rewrite findBestOpportunity_head, Hpure. reflexivity. }
  destruct Hrun as (best & h' & Hrun & Hbest).
  exists best, h'. split; [exact Hrun|]. split; [|exact Hbest].
  eapply frames_preserved; [|exact Hrun]. intros D. apply frames_findBestOpportunity.
Qed.

(** C9: run over a store that holds the reports and the [reports] array,
    each operation of the page returns what it computes from the report
    values, and leaves every object the store held before the call (the
    array and every report among them) in the store, unchanged: the
    operations only add objects of their own. *)
Theorem C9_inputs_unchanged :
  forall (h : gmap positive Store.object) (arr : positive)
         (stored : list (positive * ComparisonReport)),
    Store.holds_reports h arr stored ->
    (forall key, exists h',
       Store.getBestValue key arr h = Return (getBestValue key (map snd stored), h') /\
       Store.preserved h h' /\ Store.holds_reports h' arr stored) /\
    (forall key, exists h',
       Store.getWorstValue key arr h = Return (getWorstValue key (map snd stored), h') /\
       Store.preserved h h' /\ Store.holds_reports h' arr stored) /\
    (forall value key, exists h',
       Store.getValueColor value key arr h =
         Return (getValueColor value key (map snd stored), h') /\
       Store.preserved h h' /\ Store.holds_reports h' arr stored) /\
    (exists best h',
       Store.findBestOpportunity arr h = Return (best, h') /\
       Store.preserved h h' /\ Store.holds_reports h' arr stored /\
       match best with
       | None => findBestOpportunity (map snd stored) = Return None
       | Some v =>
           exists l b,
             v = Store.VRef l /\ In (l, b) stored /\
             findBestOpportunity (map snd stored) = Return (Some b)
       end) /\
    (exists h',
       Store.summarize arr h = Return (summary_of (map snd stored), h') /\
       Store.preserved h h' /\ Store.holds_reports h' arr stored).
Proof.
  intros h arr stored Hh.
  split; [|split; [|split; [|split]]].
  - intros key. destruct (eval_getBestValue key h arr stored Hh) as (h' & H & Hp).
    exists h'. eauto using holds_reports_preserved.
  - intros key. destruct (eval_getWorstValue key h arr stored Hh) as (h' & H & Hp).
    exists h'. eauto using holds_reports_preserved.
  - intros value key.
    destruct (eval_getValueColor value key h arr stored Hh) as (h' & H & Hp).
    exists h'. eauto using holds_reports_preserved.
  - destruct (eval_findBestOpportunity h arr stored Hh) as (best & h' & H & Hp & Hb).
    exists best, h'. eauto using holds_reports_preserved.
  - exists h. split; [apply eval_summarize, Hh|]. split; [|exact Hh].
    intros l o Hl. exact Hl.
Qed.

(** The example store: the array [[B, A]] at location 3, the reports at 1
    and 2. *)
Lemma C9_inputs_unchanged_witness :
  Store.holds_reports example_heap 3%positive
    [(1%positive, report_B); (2%positive, report_A)] /\
  exists best h',
    Store.findBestOpportunity 3%positive example_heap = Return (best, h') /\
    Store.preserved example_heap h' /\
    Store.holds_reports h' 3%positive [(1%positive, report_B); (2%positive, report_A)] /\
    match best with
    | None => findBestOpportunity [report_B; report_A] = Return None
    | Some v =>
        exists l b,
          v = Store.VRef l /\
          In (l, b) [(1%positive, report_B); (2%positive, report_A)] /\
          findBestOpportunity [report_B; report_A] = Return (Some b)
    end.
Proof.
  assert (H : Store.holds_reports example_heap 3%positive
                [(1%positive, report_B); (2%positive, report_A)]).
  { split; [reflexivity|]. repeat constructor. }
  split; [exact H|].
  exact (proj1 (proj2 (proj2 (proj2 (C9_inputs_unchanged _ _ _ H))))).
Defined.

(** * Further properties of the pages *)

Import JSString ComparisonCells.

(** ** Red-flag cells and the total of the summary *)

Lemma sum_cons (x : Q) (xs : list Q) : sum (x :: xs) = x + sum xs.
Proof. reflexivity. Qed.

Lemma sum_nonneg (xs : list Q) : Forall (fun x => 0 <= x) xs -> 0 <= sum xs.
Proof.
  induction 1 as [|x xs Hx _ IH]; [apply Qle_refl|]. rewrite sum_cons. lra.
Qed.

Lemma length_of_zero {A : Type} (xs : list A) : length_of xs == 0 <-> xs = [].
Proof.
  destruct xs as [|x xs]; split; intros H; try reflexivity; try discriminate.
Qed.

Lemma length_of_ge_3 {A : Type} (xs : list A) :
  (3 <= List.length xs)%nat -> 3 <= length_of xs.
Proof.
  intros H. unfold length_of. change 3 with (inject_Z 3).
  rewrite <- Zle_Qle. lia.
Qed.

Lemma length_of_nonneg {A : Type} (xs : list A) : 0 <= length_of xs.
Proof. unfold length_of. change 0 with (inject_Z 0). rewrite <- Zle_Qle. lia. Qed.

Lemma flag_counts_nonneg (reports : list ComparisonReport) :
  Forall (fun x => 0 <= x)
         (map (fun r => length_of (red_flags (risk_assessment r))) reports).
Proof.
  induction reports as [|r rest IH]; constructor; [|exact IH].
  apply length_of_nonneg.
Qed.

Lemma totalRedFlags_sum (reports : list ComparisonReport) :
  totalRedFlags (summary_of reports) ==
  sum (map (fun r => length_of (red_flags (risk_assessment r))) reports).
Proof. unfold summary_of. simpl. rewrite reduce_sum. ring. Qed.

Lemma redFlagsCellClass_green (r : ComparisonReport) :
  redFlagsCellClass r = BEST <-> red_flags (risk_assessment r) = [].
Proof.
  unfold redFlagsCellClass.
  destruct (red_flags (risk_assessment r)) as [|f1 [|f2 [|f3 fs]]]; simpl;
    split; intros H; try reflexivity; discriminate.
Qed.

Lemma redFlagsCellClass_red (r : ComparisonReport) :
  redFlagsCellClass r = WORST <-> (3 <= List.length (red_flags (risk_assessment r)))%nat.
Proof.
  unfold redFlagsCellClass.
  destruct (red_flags (risk_assessment r)) as [|f1 [|f2 [|f3 fs]]]; simpl;
    split; intros H; try reflexivity; try discriminate; lia.
Qed.

(** X1: the total of red flags shown in the summary is 0 exactly when every
    cell of the "Red Flags" row has the green class, and it is at least 3 as
    soon as one cell has the red class. *)
Theorem X1_red_flag_cells_and_total :
  forall reports : list ComparisonReport,
    (totalRedFlags (summary_of reports) == 0 <->
     Forall (fun r => redFlagsCellClass r = BEST) reports) /\
    (forall r, In r reports -> redFlagsCellClass r = WORST ->
               3 <= totalRedFlags (summary_of reports)).
Proof.
  intros reports. rewrite totalRedFlags_sum. split.
  - induction reports as [|r rest IH]; cbn [map]; [|rewrite sum_cons].
    + split; [constructor|reflexivity].
    + pose proof (sum_nonneg _ (flag_counts_nonneg rest)) as Hrest.
      pose proof (length_of_nonneg (red_flags (risk_assessment r))) as Hr.
      split.
      * intros Hsum. constructor.
        -- apply redFlagsCellClass_green, length_of_zero. lra.
        -- apply IH. lra.
      * intros Hall. apply List.Forall_cons_iff in Hall as [Hhead Htail].
        apply redFlagsCellClass_green in Hhead. apply IH in Htail.
        rewrite Hhead. change (length_of []) with 0. lra.
  - intros r Hin Hred. apply redFlagsCellClass_red, length_of_ge_3 in Hred.
    rewrite ?totalRedFlags_sum.
    induction reports as [|r' rest IH]; [contradiction|].
    cbn [map]. rewrite sum_cons.
    pose proof (sum_nonneg _ (flag_counts_nonneg rest)) as Hrest.
    pose proof (length_of_nonneg (red_flags (risk_assessment r'))) as Hr.
    destruct Hin as [->|Hin]; [lra|]. specialize (IH Hin). lra.
Qed.

(** ** Highlighted cells of a metric row *)

Lemma extremes_bracket (key : MetricKey) (b w x : Q) (xs : list Q) :
  is_extreme (best_is key) b xs -> is_extreme (worst_is key) w xs -> In x xs ->
  (b <= x /\ x <= w) \/ (w <= x /\ x <= b).
Proof.
  intros [_ Hb] [_ Hw] Hx. specialize (Hb x Hx). specialize (Hw x Hx).
  destruct key; simpl in *; auto.
Qed.

(** X2: in every non-empty report set each metric row has at least one cell
    classified BEST, and it has a cell classified WORST exactly when two
    reports differ on that metric. *)
Theorem X2_row_highlights :
  forall (key : MetricKey) (reports : list ComparisonReport),
    reports <> [] ->
    (exists r, In r reports /\
       getValueColor (Fin (metric_value key r)) key reports = BEST) /\
    ((exists r, In r reports /\
        getValueColor (Fin (metric_value key r)) key reports = WORST) <->
     (exists r r', In r reports /\ In r' reports /\
        ~ metric_value key r == metric_value key r')).
Proof.
  intros key reports Hne.
  destruct (best_worst_values key reports Hne) as (b & w & Hb & Hw & Hbest & Hworst).
  assert (Hcolor : forall v,
            getValueColor (Fin v) key reports =
            if Qeq_bool v b then BEST else if Qeq_bool v w then WORST else NEUTRAL).
  { intros v. unfold getValueColor. rewrite Hb, Hw. reflexivity. }
  pose proof (proj1 Hbest) as Hbin. apply List.in_map_iff in Hbin as (rb & Hrb & Hrbin).
  pose proof (proj1 Hworst) as Hwin. apply List.in_map_iff in Hwin as (rw & Hrw & Hrwin).
  split; [|split].
  - exists rb. split; [exact Hrbin|].
    rewrite Hcolor, Hrb, Qeq_bool_refl'. reflexivity.
  - intros (r & Hin & Hc). rewrite Hcolor in Hc.
    destruct (Qeq_bool (metric_value key r) b) eqn:E; [discriminate|].
    apply Qeq_bool_false in E.
    exists r, rb. rewrite Hrb. auto.
  - intros (r & r' & Hin & Hin' & Hdiff).
    exists rw. split; [exact Hrwin|].
    rewrite Hcolor, Hrw, Qeq_bool_refl'.
    destruct (Qeq_bool w b) eqn:E; [|reflexivity].
    apply Qeq_bool_iff in E. exfalso. apply Hdiff.
    pose proof (extremes_bracket key b w _ _ Hbest Hworst
                  (in_map (metric_value key) _ _ Hin)) as H1.
    pose proof (extremes_bracket key b w _ _ Hbest Hworst
                  (in_map (metric_value key) _ _ Hin')) as H2.
    destruct H1 as [[? ?]|[? ?]], H2 as [[? ?]|[? ?]]; lra.
Qed.

(** The [budget_max] row of the three example reports. *)
Lemma X2_row_highlights_witness :
  [report_A; report_B; report_C] <> [] /\
  exists r, In r [report_A; report_B; report_C] /\
    getValueColor (Fin (metric_value K_budget_max r)) K_budget_max
      [report_A; report_B; report_C] = BEST.
Proof.
  split; [discriminate|].
  exact (proj1 (X2_row_highlights K_budget_max [report_A; report_B; report_C]
                  ltac:(discriminate))).
Defined.

(** ** Ranking a ranked list *)



(** ** Selection toggles *)

Section Toggle.
Context {A : Type} (eqb : A -> A -> bool).
Hypothesis eqb_spec : forall x y, eqb x y = true <-> x = y.

Lemma includes_In (x : A) (l : list A) :
  existsb (fun y => eqb y x) l = true <-> In x l.
Proof.
  rewrite existsb_exists. split.
  - intros (y & Hy & E). apply eqb_spec in E. now subst.
  - intros H. exists x. split; [exact H|]. now apply eqb_spec.
Qed.

Lemma filter_others_In (x y : A) (l : list A) :
  In y (List.filter (fun z => negb (eqb z x)) l) <-> In y l /\ y <> x.
Proof.
  rewrite filter_In. split; intros [Hin H]; split; trivial.
  - intros ->. destruct (eqb x x) eqn:E; [discriminate|].
    assert (eqb x x = true) by now apply eqb_spec. congruence.
  - destruct (eqb y x) eqn:E; [|reflexivity]. apply eqb_spec in E. contradiction.
Qed.

Lemma filter_others_absent (x : A) (l : list A) :
  ~ In x l -> List.filter (fun z => negb (eqb z x)) l = l.
Proof.
  induction l as [|y l IH]; intros Hx; [reflexivity|]. simpl.
  destruct (eqb y x) eqn:E.
  - apply eqb_spec in E. subst. exfalso. apply Hx. now left.
  - simpl. f_equal. apply IH. intros H. apply Hx. now right.
Qed.

Lemma filter_others_self (x : A) : List.filter (fun z => negb (eqb z x)) [x] = [].
Proof.
  simpl. destruct (eqb x x) eqn:E; [reflexivity|].
  assert (eqb x x = true) by now apply eqb_spec. congruence.
Qed.

Lemma toggle_absent (x : A) (prev : list A) :
  ~ In x prev -> Array_toggle eqb x prev = prev ++ [x].
Proof.
  intros H. unfold Array_toggle.
  destruct (existsb (fun y => eqb y x) prev) eqn:E; [|reflexivity].
  apply includes_In in E. contradiction.
Qed.

Lemma toggle_present (x : A) (prev : list A) :
  In x prev -> Array_toggle eqb x prev = List.filter (fun z => negb (eqb z x)) prev.
Proof.
  intros H. unfold Array_toggle.
  apply includes_In in H. rewrite H. reflexivity.
Qed.

Lemma toggle_membership (x : A) (prev : list A) :
  (In x (Array_toggle eqb x prev) <-> ~ In x prev) /\
  (forall y, y <> x -> (In y (Array_toggle eqb x prev) <-> In y prev)).
Proof.
  destruct (existsb (fun y => eqb y x) prev) eqn:E.
  - assert (Hin : In x prev) by now apply includes_In.
    rewrite (toggle_present _ _ Hin). split.
    + rewrite filter_others_In. tauto.
    + intros y Hy. rewrite filter_others_In. tauto.
  - assert (Hin : ~ In x prev).
    { intros H. apply includes_In in H. congruence. }
    rewrite (toggle_absent _ _ Hin). split.
    + rewrite in_app_iff. simpl. tauto.
    + intros y Hy. rewrite in_app_iff. simpl. split; [|tauto].
      intros [H|[H|[]]]; [exact H|]. subst. contradiction.
Qed.

Lemma toggle_NoDup (x : A) (prev : list A) :
  List.NoDup prev -> List.NoDup (Array_toggle eqb x prev).
Proof.
  intros Hnd. unfold Array_toggle.
  destruct (existsb (fun y => eqb y x) prev) eqn:E.
  - apply List.NoDup_filter, Hnd.
  - assert (Hin : ~ In x prev).
    { intros H. apply includes_In in H. congruence. }
    apply List.NoDup_app; [exact Hnd|repeat constructor; intros []|].
    intros y Hy [<-|[]]. contradiction.
Qed.

Lemma toggle_twice_absent (x : A) (prev : list A) :
  ~ In x prev -> Array_toggle eqb x (Array_toggle eqb x prev) = prev.
Proof.
  intros H. rewrite (toggle_absent _ _ H).
  rewrite toggle_present by (apply in_or_app; right; now left).
  rewrite List.filter_app, filter_others_self, (filter_others_absent _ _ H).
  apply app_nil_r.
Qed.

Lemma toggle_twice_present (x : A) (prev : list A) :
  List.NoDup prev -> In x prev ->
  Permutation (Array_toggle eqb x (Array_toggle eqb x prev)) prev.
Proof.
  intros Hnd Hin. rewrite (toggle_present _ _ Hin).
  assert (Hout : ~ In x (List.filter (fun z => negb (eqb z x)) prev)).
  { rewrite filter_others_In. tauto. }
  rewrite (toggle_absent _ _ Hout).
  apply in_split in Hin as (l1 & l2 & ->).
  apply List.NoDup_remove_2 in Hnd.
  rewrite List.filter_app. simpl.
  replace (negb (eqb x x)) with false.
  2:{ symmetry. apply Bool.negb_false_iff. now apply eqb_spec. }
  rewrite !filter_others_absent.
  - rewrite <- List.app_assoc. apply Permutation_app_head.
    apply Permutation_sym, Permutation_cons_append.
  - intros H. apply Hnd, in_or_app. now right.
  - intros H. apply Hnd, in_or_app. now left.
Qed.

Lemma toggle_length_present (x : A) (prev : list A) :
  List.NoDup prev -> In x prev ->
  S (List.length (Array_toggle eqb x prev)) = List.length prev.
Proof.
  intros Hnd Hin. rewrite (toggle_present _ _ Hin).
  apply in_split in Hin as (l1 & l2 & ->).
  apply List.NoDup_remove_2 in Hnd.
  rewrite List.filter_app. simpl.
  replace (negb (eqb x x)) with false.
  2:{ symmetry. apply Bool.negb_false_iff. now apply eqb_spec. }
  rewrite !filter_others_absent.
  - rewrite !List.length_app. simpl. lia.
  - intros H. apply Hnd, in_or_app. now right.
  - intros H. apply Hnd, in_or_app. now left.
Qed.

End Toggle.

(** X7: on a selection without repetition, [toggleReportSelection] keeps
    the selection without repetition, flips the membership of the toggled
    report and of no other, and changes the number of selected reports by
    exactly one. *)
Theorem X7_toggleReportSelection :
  forall (reportId : Z) (prev : list Z),
    List.NoDup prev ->
    List.NoDup (Dashboard.toggleReportSelection reportId prev) /\
    (In reportId (Dashboard.toggleReportSelection reportId prev) <-> ~ In reportId prev) /\
    (forall other, other <> reportId ->
       (In other (Dashboard.toggleReportSelection reportId prev) <-> In other prev)) /\
    (In reportId prev ->
       S (List.length (Dashboard.toggleReportSelection reportId prev)) = List.length prev) /\
    (~ In reportId prev ->
       List.length (Dashboard.toggleReportSelection reportId prev) = S (List.length prev)).
Proof.
  intros reportId prev Hnd. unfold Dashboard.toggleReportSelection.
  split; [apply (toggle_NoDup Z.eqb Z.eqb_eq), Hnd|].
  destruct (toggle_membership Z.eqb Z.eqb_eq reportId prev) as [Hself Hothers].
  split; [exact Hself|]. split; [exact Hothers|]. split.
  - apply (toggle_length_present Z.eqb Z.eqb_eq), Hnd.
  - intros Hout. rewrite (toggle_absent Z.eqb Z.eqb_eq _ _ Hout).
    rewrite List.length_app. simpl. lia.
Qed.

(** Unselecting report 7 from the selection 3, 7, 9. *)
Lemma X7_toggleReportSelection_witness :
  List.NoDup [3; 7; 9]%Z /\
  List.NoDup (Dashboard.toggleReportSelection 7 [3; 7; 9]%Z).
Proof.
  assert (H : List.NoDup [3; 7; 9]%Z).
  { repeat constructor; simpl; intuition lia. }
  split; [exact H|].
  exact (proj1 (X7_toggleReportSelection 7 [3; 7; 9]%Z H)).
Defined.

(** X8: clicking a risk category twice restores the list of expanded
    categories when the category was collapsed; when it was expanded (in a
    list without repetition) the same categories are expanded afterwards,
    the clicked one now listed last.  One click flips the clicked category
    and no other. *)
Theorem X8_toggleRiskCategory :
  forall (categoryName : string) (prev : list string),
    (~ In categoryName prev ->
     ReportDetail.toggleRiskCategory categoryName
       (ReportDetail.toggleRiskCategory categoryName prev) = prev) /\
    (List.NoDup prev -> In categoryName prev ->
     exists others,
       ReportDetail.toggleRiskCategory categoryName
         (ReportDetail.toggleRiskCategory categoryName prev) = others ++ [categoryName] /\
       Permutation (others ++ [categoryName]) prev) /\
    (In categoryName (ReportDetail.toggleRiskCategory categoryName prev) <->
     ~ In categoryName prev) /\
    (forall other, other <> categoryName ->
       (In other (ReportDetail.toggleRiskCategory categoryName prev) <-> In other prev)).
Proof.
  intros categoryName prev. unfold ReportDetail.toggleRiskCategory.
  split; [apply (toggle_twice_absent String.eqb String.eqb_eq)|].
  split; [|apply (toggle_membership String.eqb String.eqb_eq)].
  intros Hnd Hin.
  exists (List.filter (fun z => negb (z =? categoryName)%string) prev).
  assert (Heq : Array_toggle String.eqb categoryName
                  (Array_toggle String.eqb categoryName prev) =
                List.filter (fun z => negb (z =? categoryName)%string) prev
                ++ [categoryName]).
  { rewrite (toggle_present String.eqb String.eqb_eq _ _ Hin).
    apply (toggle_absent String.eqb String.eqb_eq).
    rewrite (filter_others_In String.eqb String.eqb_eq). tauto. }
  split; [exact Heq|]. rewrite <- Heq.
  apply (toggle_twice_present String.eqb String.eqb_eq); assumption.
Qed.

(** ** The identifiers from the dashboard to the loader *)

Lemma comma_free_cons (c : ascii) (s : string) :
  comma_free (String c s) <-> c <> ","%char /\ comma_free s.
Proof.
  unfold comma_free. simpl. split.
  - intros H. split; [apply H; now left|]. intros c' Hc'. apply H. now right.
  - intros [Hc Hs] c' [<-|Hc']; auto.
Qed.

Lemma split_comma_piece (s t : string) :
  comma_free s -> split_comma (s ++ "," ++ t) = s :: split_comma t.
Proof.
  induction s as [|c s IH]; intros Hs; [reflexivity|].
  apply comma_free_cons in Hs as [Hc Hs]. simpl.
  destruct (Ascii.eqb c ",") eqn:E.
  - apply Ascii.eqb_eq in E. contradiction.
  - simpl in IH. rewrite (IH Hs). reflexivity.
Qed.

Lemma split_comma_single (s : string) : comma_free s -> split_comma s = [s].
Proof.
  induction s as [|c s IH]; intros Hs; [reflexivity|].
  apply comma_free_cons in Hs as [Hc Hs]. simpl.
  destruct (Ascii.eqb c ",") eqn:E.
  - apply Ascii.eqb_eq in E. contradiction.
  - rewrite (IH Hs). reflexivity.
Qed.

Lemma split_join (pieces : list string) :
  pieces <> [] -> Forall comma_free pieces ->
  split_comma (Array_join "," pieces) = pieces.
Proof.
  induction pieces as [|x rest IH]; intros Hne Hall; [congruence|].
  apply List.Forall_cons_iff in Hall as [Hx Hrest].
  destruct rest as [|y rest'].
  - simpl. apply split_comma_single, Hx.
  - change (Array_join "," (x :: y :: rest'))
      with (x ++ "," ++ Array_join "," (y :: rest'))%string.
    rewrite (split_comma_piece _ _ Hx), IH; [reflexivity|discriminate|exact Hrest].
Qed.

Lemma join_split (s : string) : Array_join "," (split_comma s) = s.
Proof.
  induction s as [|c s IH]; [reflexivity|]. simpl.
  destruct (Ascii.eqb c ",") eqn:E.
  - apply Ascii.eqb_eq in E. subst c.
    destruct (split_comma s) as [|piece pieces] eqn:Es.
    + destruct s; simpl in Es; [discriminate|].
      destruct (Ascii.eqb a ","); [discriminate|].
      destruct (split_comma s); discriminate.
    + change (Array_join "," (EmptyString :: piece :: pieces))
        with ("," ++ Array_join "," (piece :: pieces))%string.
      rewrite IH. reflexivity.
  - destruct (split_comma s) as [|piece pieces] eqn:Es.
    + destruct s; simpl in Es; [discriminate|].
      destruct (Ascii.eqb a ","); [discriminate|].
      destruct (split_comma s); discriminate.
    + destruct pieces as [|p2 ps]; simpl in *; rewrite <- IH; reflexivity.
Qed.

(** X9: [split(',')] undoes [join(',')] on every non-empty array of pieces
    without commas, and [join(',')] undoes [split(',')] on every string; the
    empty array is the exception: it joins to the empty string, which
    splits into one empty piece. *)
Theorem X9_split_join_round_trip :
  (forall pieces : list string,
     pieces <> [] -> Forall comma_free pieces ->
     split_comma (Array_join "," pieces) = pieces) /\
  (forall s : string, Array_join "," (split_comma s) = s) /\
  split_comma (Array_join "," []) = [EmptyString].
Proof.
  split; [exact split_join|]. split; [exact join_split|reflexivity].
Qed.

Lemma split_comma_length (s : string) :
  List.length (split_comma s) = S (count_commas s).
Proof.
  induction s as [|c s IH]; [reflexivity|]. simpl.
  destruct (Ascii.eqb c ","); simpl; [now rewrite IH|].
  destruct (split_comma s); simpl in *; congruence.
Qed.

(** X10: the loader turns back to "/" exactly when the [ids] parameter is
    absent or has no comma: it counts the pieces between commas, whatever
    they are, so a parameter with one comma or more always leads to the
    comparison request. *)
Theorem X10_loader_counts_commas :
  forall (Number : string -> number) (ids_param : option string)
         (post : list number -> option (list ComparisonReport)),
    (forall s, List.length (parse_ids Number (Some s)) = S (count_commas s)) /\
    (loadComparison Number ids_param post = Return [Navigate "/"; SetLoading false] <->
     ids_param = None \/ exists s, ids_param = Some s /\ count_commas s = O).
Proof.
  intros Number ids_param post.
  assert (Hlen : forall s, List.length (parse_ids Number (Some s)) = S (count_commas s)).
  { intros s. simpl. rewrite List.length_map. apply split_comma_length. }
  split; [exact Hlen|]. split.
  - intros H. destruct ids_param as [s|]; [right|now left].
    exists s. split; [reflexivity|].
    destruct (count_commas s) as [|n] eqn:E; [reflexivity|].
    rewrite loadComparison_requests in H by (rewrite Hlen, E; lia).
    discriminate.
  - intros [->|(s & -> & E)]; apply loadComparison_rejects.
    + simpl. lia.
    + rewrite Hlen, E. lia.
Qed.

(** *** Decimal strings of identifiers *)

Lemma pretty_N_char_code (d : N) :
  (d < 10)%N -> N_of_ascii (pretty_N_char d) = (48 + d)%N.
Proof.
  intros H.
  assert (d = 0 \/ d = 1 \/ d = 2 \/ d = 3 \/ d = 4 \/ d = 5 \/ d = 6 \/
          d = 7 \/ d = 8 \/ d = 9)%N as Hd by lia.
  repeat (destruct Hd as [->|Hd]; [reflexivity|]). subst. reflexivity.
Qed.

Lemma pretty_N_char_not_comma (d : N) : pretty_N_char d <> ","%char.
Proof. unfold pretty_N_char. repeat case_match; discriminate. Qed.

Lemma pretty_N_go_comma_free (x : N) :
  forall s, comma_free s -> comma_free (pretty_N_go x s).
Proof.
  induction (N.lt_wf_0 x) as [x _ IH]; intros s Hs.
  assert (x = 0 \/ 0 < x)%N as [->|Hpos] by lia; [exact Hs|].
  rewrite pretty_N_go_step by exact Hpos.
  apply IH; [apply N.div_lt; lia|].
  apply comma_free_cons. split; [apply pretty_N_char_not_comma|exact Hs].
Qed.

Lemma pretty_N_comma_free (n : N) : comma_free (pretty n).
Proof.
  unfold pretty, pretty_N. case_decide.
  - intros c [<-|[]]. discriminate.
  - apply pretty_N_go_comma_free. intros c [].
Qed.

Lemma digits_value_pretty_N_go (x : N) :
  exists k : N, forall s acc,
    digits_value acc (pretty_N_go x s) = digits_value (acc * 10 ^ k + x) s.
Proof.
  induction (N.lt_wf_0 x) as [x _ IH].
  assert (x = 0 \/ 0 < x)%N as [->|Hpos] by lia.
  - exists 0%N. intros s acc. rewrite pretty_N_go_0. f_equal. simpl. lia.
  - destruct (IH (x `div` 10)%N) as [k Hk]; [apply N.div_lt; lia|].
    exists (N.succ k). intros s acc.
    rewrite pretty_N_go_step by exact Hpos. rewrite Hk.
    assert (Hd : (x `mod` 10 < 10)%N) by (apply N.mod_lt; lia).
    pose proof (N.div_mod x 10 ltac:(lia)) as Hx.
    cbn [digits_value]. rewrite (pretty_N_char_code _ Hd).
    clear IH Hk.
    generalize dependent (x `mod` 10)%N. intros r Hd Hx.
    generalize dependent (x `div` 10)%N. intros q Hx.
    replace ((48 <=? 48 + r) && (48 + r <=? 57))%N with true.
    2:{ symmetry. apply andb_true_iff. split; apply N.leb_le; lia. }
    f_equal. rewrite N.pow_succ_r'.
    generalize (10 ^ k)%N. intros p. lia.
Qed.

Lemma Number_decimal_pretty (n : N) :
  Number_decimal (pretty n) = Fin (inject_Z (Z.of_N n)).
Proof.
  unfold Number_decimal, pretty, pretty_N. case_decide as Hn.
  - subst. reflexivity.
  - destruct (digits_value_pretty_N_go n) as [k Hk].
    rewrite Hk. simpl. reflexivity.
Qed.

Lemma Number_toString_nonneg (z : Z) :
  (0 <= z)%Z -> Number_toString z = pretty (Z.to_N z).
Proof. destruct z as [|p|p]; intros H; [reflexivity|reflexivity|lia]. Qed.

Section DashboardToLoader.

(** What is taken of the global [Number]: the decimal string of a natural
    number up to [Number.MAX_SAFE_INTEGER] reads back as that number. *)
Variable Number : string -> number.
Hypothesis Number_reads_decimal :
  forall n : N, (n <= 9007199254740991)%N ->
    Number (pretty n) = Fin (inject_Z (Z.of_N n)).

Lemma parse_joined_ids (selected : list Z) :
  selected <> [] ->
  Forall (fun id => 0 <= id <= 9007199254740991)%Z selected ->
  parse_ids Number (Some (Array_join "," (map Number_toString selected))) =
    map (fun id => Fin (inject_Z id)) selected.
Proof.
  intros Hne Hall. unfold parse_ids.
  rewrite split_join.
  - rewrite map_map. apply map_ext_in. intros id Hid.
    rewrite List.Forall_forall in Hall. specialize (Hall id Hid).
    rewrite Number_toString_nonneg by lia.
    rewrite Number_reads_decimal by lia.
    rewrite Z2N.id by lia. reflexivity.
  - destruct selected; [congruence|discriminate].
  - rewrite List.Forall_forall in *. intros piece Hpiece.
    apply List.in_map_iff in Hpiece as (id & <- & Hid).
    specialize (Hall id Hid).
    rewrite Number_toString_nonneg by lia. apply pretty_N_comma_free.
Qed.

(** X11: with two to five selected reports (identifiers between 0 and
    [Number.MAX_SAFE_INTEGER]), [handleCompare] navigates to
    "/compare?ids=..." and the loader, given the value of [ids] of that
    path, reads back exactly the selected identifiers, in the order of
    selection, and requests their comparison.  With fewer than two or more
    than five selected reports [handleCompare] does not navigate; with more
    than five the "Compare" button is shown all the same. *)
Theorem X11_selection_reaches_loader :
  forall (selected : list Z) (post : list number -> option (list ComparisonReport)),
    Forall (fun id => 0 <= id <= 9007199254740991)%Z selected ->
    ((2 <= List.length selected <= 5)%nat ->
     exists ids_param : string,
       Dashboard.handleCompare selected = Some ("/compare?ids=" ++ ids_param)%string /\
       parse_ids Number (Some ids_param) = map (fun id => Fin (inject_Z id)) selected /\
       loadComparison Number (Some ids_param) post =
         Return [Post "/api/reports/compare" (map (fun id => Fin (inject_Z id)) selected);
                 match post (map (fun id => Fin (inject_Z id)) selected) with
                 | Some reports => SetReports reports
                 | None => ConsoleError
                 end;
                 SetLoading false]) /\
    ((List.length selected < 2 \/ 5 < List.length selected)%nat ->
     Dashboard.handleCompare selected = None) /\
    ((5 < List.length selected)%nat ->
     Dashboard.compare_button_shown selected = true).
Proof.
  intros selected post Hall. split.
  - intros [Hlo Hhi].
    exists (Array_join "," (map Number_toString selected)).
    assert (Hne : selected <> []) by (destruct selected; [simpl in Hlo; lia|discriminate]).
    pose proof (parse_joined_ids selected Hne Hall) as Hparse.
    split; [|split; [exact Hparse|]].
    + unfold Dashboard.handleCompare.
      apply Nat.leb_le in Hlo, Hhi. rewrite Hlo, Hhi. reflexivity.
    + rewrite loadComparison_requests; rewrite Hparse; [reflexivity|].
      rewrite List.length_map. exact Hlo.
  - split.
    + intros H. unfold Dashboard.handleCompare.
      destruct H as [H|H].
      * apply Nat.leb_gt in H. rewrite H. reflexivity.
      * apply Nat.leb_gt in H. rewrite H, andb_false_r. reflexivity.
    + intros H. unfold Dashboard.compare_button_shown. apply Nat.leb_le. lia.
Qed.

End DashboardToLoader.

(** The reports 12, 7 and 30, selected in that order. *)
Lemma X11_selection_reaches_loader_witness :
  Forall (fun id => 0 <= id <= 9007199254740991)%Z [12; 7; 30]%Z /\
  Dashboard.handleCompare [12; 7; 30]%Z = Some "/compare?ids=12,7,30"%string /\
  parse_ids Number_decimal (Some "12,7,30"%string) = [Fin 12; Fin 7; Fin 30] /\
  ((List.length [12; 7; 30]%Z < 2 \/ 5 < List.length [12; 7; 30]%Z)%nat ->
   Dashboard.handleCompare [12; 7; 30]%Z = None).
Proof.
  assert (H : Forall (fun id => 0 <= id <= 9007199254740991)%Z [12; 7; 30]%Z).
  { repeat constructor; lia. }
  split; [exact H|]. split; [reflexivity|]. split; [reflexivity|].
  exact (proj1 (proj2 (X11_selection_reaches_loader Number_decimal
                  (fun n _ => Number_decimal_pretty n) [12; 7; 30]%Z (fun _ => None) H))).
Defined.

(** ** Simulated upload progress *)



(** ** API addresses *)

Lemma endsWith_app (s suffix : string) : endsWith (s ++ suffix) suffix = true.
Proof.
  induction s as [|c s IH]; simpl.
  - destruct suffix; simpl; rewrite ?String.eqb_refl, ?Ascii.eqb_refl; reflexivity.
  - rewrite IH. apply orb_true_r.
Qed.

Lemma slice_0_minus1_cons (a b : ascii) (rest : string) :
  slice_0_minus1 (String a (String b rest)) =
  String a (slice_0_minus1 (String b rest)).
Proof. reflexivity. Qed.

Lemma slice_0_minus1_app (s : string) (c : ascii) :
  slice_0_minus1 (s ++ String c EmptyString) = s.
Proof.
  induction s as [|a s IH]; [reflexivity|].
  change (String a s ++ String c EmptyString)%string
    with (String a (s ++ String c EmptyString)).
  destruct (s ++ String c EmptyString)%string eqn:E.
  - destruct s; discriminate.
  - rewrite slice_0_minus1_cons, IH. reflexivity.
Qed.

Lemma app_slash_assoc (s t : string) :
  ((s ++ "/") ++ t = s ++ "/" ++ t)%string.
Proof.
  induction s as [|c s IH]; [reflexivity|].
  change (String c ((s ++ "/") ++ t) = String c (s ++ "/" ++ t))%string.
  now rewrite IH.
Qed.

(** X13: [getApiUrl] joins the base address and the path with exactly one
    slash whether or not the base ends with a slash and whether or not the
    path starts with one; an absent path gives the base followed by a slash.
    Only one trailing slash of the base is removed: a base ending in two
    slashes keeps one of them before the slash of the path. *)
Theorem X13_getApiUrl_slashes :
  forall base path : string,
    endsWith base "/" = false ->
    startsWith path "/" = false ->
    Config.getApiUrl base (Some path) = (base ++ "/" ++ path)%string /\
    Config.getApiUrl (base ++ "/") (Some path) = (base ++ "/" ++ path)%string /\
    Config.getApiUrl base (Some ("/" ++ path)%string) = (base ++ "/" ++ path)%string /\
    Config.getApiUrl (base ++ "/") (Some ("/" ++ path)%string) = (base ++ "/" ++ path)%string /\
    Config.getApiUrl base None = (base ++ "/")%string /\
    Config.getApiUrl (base ++ "//") (Some path) = (base ++ "//" ++ path)%string.
Proof.
  intros base path Hbase Hpath.
  assert (Hslash : startsWith ("/" ++ path) "/" = true).
  { unfold startsWith. simpl. destruct path; reflexivity. }
  unfold Config.getApiUrl.
  rewrite Hbase, Hpath, Hslash, (endsWith_app base "/"), (slice_0_minus1_app base "/").
  repeat split.
  - replace (base ++ "//")%string with ((base ++ "/") ++ "/")%string
      by apply app_slash_assoc.
    rewrite endsWith_app, slice_0_minus1_app. simpl.
    rewrite app_slash_assoc. reflexivity.
Qed.

(** The default base address and a relative path. *)
Lemma X13_getApiUrl_slashes_witness :
  Config.getApiUrl (Config.apiUrl None) (Some "api/reports"%string) =
    "http://localhost:8000/api/reports"%string /\
  Config.getApiUrl "http://localhost:8000/" (Some "/api/reports"%string) =
    "http://localhost:8000/api/reports"%string.
Proof.
  pose proof (X13_getApiUrl_slashes "http://localhost:8000" "api/reports"
                ltac:(reflexivity) ltac:(reflexivity)) as H.
  split; [exact (proj1 H)|exact (proj1 (proj2 (proj2 (proj2 H))))].
Defined.

(** ** Logging out *)

(** X14: after [handleLogout] every private route redirects to "/login",
    whatever the storage held: the token and the user are gone and no other
    key is touched.  A private route renders its page exactly when the
    storage holds a non-empty token. *)
Theorem X14_logout_closes_private_routes :
  forall localStorage : gmap string string,
    App.PrivateRoute (fst (App.handleLogout localStorage)) = App.NavigateTo "/login" /\
    snd (App.handleLogout localStorage) = "/login"%string /\
    fst (App.handleLogout localStorage) !! "auth_token"%string = None /\
    fst (App.handleLogout localStorage) !! "user"%string = None /\
    (forall key : string, key <> "auth_token"%string -> key <> "user"%string ->
       fst (App.handleLogout localStorage) !! key = localStorage !! key) /\
    (App.PrivateRoute localStorage = App.Children <->
     exists token, localStorage !! "auth_token"%string = Some token /\
                   token <> EmptyString).
Proof.
  intros localStorage. unfold App.handleLogout. cbn [fst snd].
  assert (Htoken : delete "user"%string (delete "auth_token"%string localStorage)
                     !! "auth_token"%string = None).
  { rewrite lookup_delete_ne by discriminate. apply lookup_delete_eq. }
  split; [unfold App.PrivateRoute; rewrite Htoken; reflexivity|].
  split; [reflexivity|]. split; [exact Htoken|].
  split; [apply lookup_delete_eq|]. split.
  - intros key H1 H2. rewrite !lookup_delete_ne by congruence. reflexivity.
  - unfold App.PrivateRoute. split.
    + destruct (localStorage !! "auth_token"%string) as [token|]; [|discriminate].
      destruct (token =? "")%string eqn:E; [discriminate|].
      intros _. exists token. split; [reflexivity|].
      apply String.eqb_neq, E.
    + intros (token & -> & Hne). apply String.eqb_neq in Hne. rewrite Hne. reflexivity.
Qed.
